(** * FileHound: the traversal engine and its predicate composition

    A shallow embedding of the [FileHound] class (filehound.js) and a
    verification of the properties stated for it.

    The file system is a static snapshot.  A [File] value is a [file-js]
    object together with the outcome every one of its queries has on that
    snapshot; a query that throws is an [Err].  A bluebird promise is
    modelled by the computation that settles it, run against the shared
    [trackedPaths] array when it is awaited.  The 'match', 'error' and
    'end' notifications have no part in what is returned and are left
    out. *)

From Stdlib Require Import List String Ascii ZArith Bool Lia Permutation.
Import ListNotations.
Open Scope string_scope.
Open Scope Z_scope.
Open Scope list_scope.

Set Implicit Arguments.

(* ===================================================================== *)
(** ** Exceptions and fallible results *)

Inductive error : Type :=
| FsError (code : string)        (* thrown by a file-js query: EACCES, ENOENT... *)
| TypeError (message : string)   (* thrown by the JavaScript runtime *)
| SyntaxError (message : string). (* thrown by new RegExp on an invalid pattern *)

Inductive result (A : Type) : Type :=
| Ok (value : A)
| Err (e : error).

Arguments Ok {A} value.
Arguments Err {A} e.

Definition rbind {A B} (r : result A) (k : A -> result B) : result B :=
  match r with
  | Ok a => k a
  | Err e => Err e
  end.

Definition isOk {A} (r : result A) : bool :=
  match r with Ok _ => true | Err _ => false end.

Declare Scope result_scope.
Delimit Scope result_scope with result.
Notation "x <- r ;; k" := (rbind r (fun x => k))
  (at level 61, r at next level, right associativity) : result_scope.

(* ===================================================================== *)
(** ** The file-js boundary *)

Record Stats : Type := mkStats { size : Z; mtime : Z }.

(** A [File] object: each field is what the method of the same name
    returns (or throws) on the snapshot. [getFilesSync] and the promise
    returned by [getFiles] have the same outcome. *)
#[local] Unset Elimination Schemes.
Inductive File : Type :=
  mkFile (name : string)
         (depth : result Z)
         (hidden : result bool)
         (isDir : result bool)
         (stats : result Stats)
         (files : result (list File)).
#[local] Set Elimination Schemes.

Definition getName (f : File) : string :=
  match f with mkFile n _ _ _ _ _ => n end.
Definition getDepthSync (f : File) : result Z :=
  match f with mkFile _ d _ _ _ _ => d end.
Definition isHiddenSync (f : File) : result bool :=
  match f with mkFile _ _ h _ _ _ => h end.
Definition isDirectorySync (f : File) : result bool :=
  match f with mkFile _ _ _ i _ _ => i end.
Definition _getStatsSync (f : File) : result Stats :=
  match f with mkFile _ _ _ _ s _ => s end.
Definition getFilesSync (f : File) : result (list File) :=
  match f with mkFile _ _ _ _ _ l => l end.

(** Induction over a [File] and everything listed below it. *)
Section File_induction.
Variable P : File -> Prop.
Hypothesis P_unlisted :
  forall n d h i s e, P (mkFile n d h i s (Err e)).
Hypothesis P_listed :
  forall n d h i s l, Forall P l -> P (mkFile n d h i s (Ok l)).

Fixpoint File_ind (f : File) : P f :=
  match f with
  | mkFile n d h i s (Err e) => P_unlisted n d h i s e
  | mkFile n d h i s (Ok l) =>
      P_listed n d h i s
        ((fix all (l : list File) : Forall P l :=
            match l with
            | [] => Forall_nil P
            | c :: r => Forall_cons c (File_ind c) (all r)
            end) l)
  end.
End File_induction.

(** [File.create(dir)]: the snapshot, as the object each path denotes. *)
Definition FileSystem : Type := string -> File.

(** A filter added with [addFilter]; it may throw (a failing stat). *)
Definition Filter : Type := File -> result bool.

(* ===================================================================== *)
(** ** Helpers imported from ./functions, ./files and ./arrays *)

(** Modelled from the spec: [negate] of ./functions is not among the
    sources. It wraps a predicate in logical negation. *)
Definition negate (fn : Filter) : Filter :=
  fun file => (b <- fn file ;; Ok (negb b))%result.

(** Modelled from the spec: [compose] of ./functions is not among the
    sources. The composed predicate returns true iff every added predicate
    returns true; the empty chain always returns true. The predicates are
    consulted in the order they were added and a throw leaves at once. *)
Fixpoint compose (filters : list Filter) : Filter :=
  fun file =>
    match filters with
    | [] => Ok true
    | f :: rest =>
        (b <- f file ;; c <- compose rest file ;; Ok (b && c))%result
    end.

(** Path strings: segments between separators. *)
Fixpoint split_sep (s : string) (cur : string) : list string :=
  match s with
  | EmptyString => [cur]
  | String c r =>
      if Ascii.eqb c "/"%char then cur :: split_sep r EmptyString
      else split_sep r (cur ++ String c EmptyString)%string
  end.

Definition segments (p : string) : list string :=
  filter (fun s => negb (String.eqb s EmptyString)) (split_sep p EmptyString).

Definition isAbsolute (p : string) : bool :=
  match p with
  | String c _ => Ascii.eqb c "/"%char
  | EmptyString => false
  end.

Fixpoint strict_prefix (a b : list string) : bool :=
  match a, b with
  | [], _ :: _ => true
  | x :: a', y :: b' => String.eqb x y && strict_prefix a' b'
  | _, [] => false
  end.

(** [candidate] lies strictly below [base]. *)
Definition isStrictDescendant (base candidate : string) : bool :=
  Bool.eqb (isAbsolute base) (isAbsolute candidate)
  && strict_prefix (segments base) (segments candidate).

(** Modelled from the spec: [reducePaths] of ./files is not among the
    sources. It drops any path that is a strict descendant of another path
    of the set. *)
Definition reducePaths (searchPaths : list string) : list string :=
  filter (fun candidate =>
            negb (existsb (fun base => isStrictDescendant base candidate)
                          searchPaths))
         searchPaths.

(** Modelled from the spec: [copy] of ./arrays is not among the sources;
    a copy of an array of strings has the same elements. *)
Definition copy (paths : list string) : list string := paths.

(** [_.uniq]: the first occurrence of each value, in order. *)
Fixpoint uniq_from (seen : list string) (l : list string) : list string :=
  match l with
  | [] => []
  | x :: r =>
      if existsb (String.eqb x) seen then uniq_from seen r
      else x :: uniq_from (x :: seen) r
  end.

Definition uniq (l : list string) : list string := uniq_from [] l.

(** POSIX [path.normalize] of the runtime: empty and "." segments go,
    ".." takes the segment before it, a trailing separator is kept. *)
Fixpoint normalizeSegments (allowAboveRoot : bool) (segs : list string)
         (res : list string) : list string :=
  match segs with
  | [] => rev res
  | s :: r =>
      if String.eqb s EmptyString || String.eqb s "." then
        normalizeSegments allowAboveRoot r res
      else if String.eqb s ".." then
        match res with
        | top :: below =>
            if String.eqb top ".." then
              normalizeSegments allowAboveRoot r
                (if allowAboveRoot then ".." :: res else res)
            else normalizeSegments allowAboveRoot r below
        | [] =>
            normalizeSegments allowAboveRoot r
              (if allowAboveRoot then [".."] else [])
        end
      else normalizeSegments allowAboveRoot r (s :: res)
  end.

Fixpoint endsWithSep (p : string) : bool :=
  match p with
  | EmptyString => false
  | String c EmptyString => Ascii.eqb c "/"%char
  | String _ r => endsWithSep r
  end.

Definition posix_normalize (p : string) : string :=
  match p with
  | EmptyString => "."
  | _ =>
      let abs := isAbsolute p in
      let trailing := endsWithSep p in
      let body :=
        String.concat "/" (normalizeSegments (negb abs) (split_sep p EmptyString) []) in
      if String.eqb body EmptyString then
        (if abs then "/" else if trailing then "./" else ".")
      else
        ((if abs then "/" else EmptyString) ++ body ++ (if trailing then "/" else EmptyString))%string
  end.

(* ===================================================================== *)
(** ** The [trackedPaths] array and the computations that push to it *)

Definition Store : Type := list File.

(** A computation that may throw and may push to [trackedPaths]. *)
Definition M (A : Type) : Type := Store -> result (A * Store).

Definition ret {A} (a : A) : M A := fun st => Ok (a, st).

Definition bind {A B} (m : M A) (k : A -> M B) : M B :=
  fun st =>
    match m st with
    | Ok (a, st') => k a st'
    | Err e => Err e
    end.

Definition lift {A} (r : result A) : M A :=
  fun st =>
    match r with
    | Ok a => Ok (a, st)
    | Err e => Err e
    end.

(** [trackedPaths.push(file)] *)
Definition push (file : File) : M unit := fun st => Ok (tt, st ++ [file]).

Declare Scope search_scope.
Delimit Scope search_scope with search.
Notation "x <- m ;; k" := (bind m (fun x => k))
  (at level 61, m at next level, right associativity) : search_scope.
Notation "m ;;; k" := (bind m (fun _ => k))
  (at level 61, right associativity) : search_scope.

Section MapM.
Variables A B : Type.
Variable f : A -> M B.

(** [.map(f)], the callback running on each element in turn. *)
Fixpoint mapM (l : list A) : M (list B) :=
  match l with
  | [] => ret []
  | a :: r => (b <- f a ;; bs <- mapM r ;; ret (b :: bs))%search
  end.
End MapM.

(** [.filter(p)] with a callback that may throw. *)
Fixpoint filterR (p : Filter) (l : list File) : result (list File) :=
  match l with
  | [] => Ok []
  | x :: r =>
      (b <- p x ;; rest <- filterR p r ;;
       Ok (if b then x :: rest else rest))%result
  end.

(** What the callback of [.map] returns in [_search]: the entry itself, or
    the array of a sub-search. *)
Inductive Item : Type :=
| One (file : File)
| Many (files : list File).

(** [function flatten(a, b) { return a.concat(b); }]: an array argument is
    spread, any other value is appended. *)
Definition flatten (a : list File) (b : Item) : list File :=
  a ++ match b with
       | One f => [f]
       | Many l => l
       end.

(** [_search] returns an array, or a promise of one. *)
Inductive Pending : Type :=
| Arr (files : list File)
| Promise (settle : M (list File)).

(** What the callback of bluebird's [.map] returns. *)
Inductive AsyncItem : Type :=
| AOne (file : File)
| APending (p : Pending).

(** bluebird waits for a promise the callback returned and takes any
    other value as it is. Promises of one listing settle in listing
    order. *)
Definition await (i : AsyncItem) : M Item :=
  match i with
  | AOne f => ret (One f)
  | APending (Arr l) => ret (Many l)
  | APending (Promise settle) => (l <- settle ;; ret (Many l))%search
  end.

(* ===================================================================== *)
(** ** The FileHound object *)

Record FileHound : Type := mkFileHound {
  _filters : list Filter;
  _searchPaths : list string;
  _ignoreHiddenDirectories : bool;
  _isMatch : Filter;
  _sync : bool;
  _directoriesOnly : bool;
  _includeStats : bool;
  maxDepth : option Z;          (* undefined until depth() is called *)
  negateFilters : bool          (* undefined (falsy) until not() is called *)
}.

(** [_.noop] returns undefined, which [.filter] reads as false. *)
Definition noop : Filter := fun _ => Ok false.

(** [constructor()]; [cwd] is [process.cwd()] at that moment. *)
Definition create (cwd : string) : FileHound :=
  {| _filters := [];
     _searchPaths := [cwd];
     _ignoreHiddenDirectories := false;
     _isMatch := noop;
     _sync := false;
     _directoriesOnly := false;
     _includeStats := false;
     maxDepth := None;
     negateFilters := false |}.

Definition set_filters (v : list Filter) (fh : FileHound) : FileHound :=
  mkFileHound v (_searchPaths fh) (_ignoreHiddenDirectories fh) (_isMatch fh)
    (_sync fh) (_directoriesOnly fh) (_includeStats fh) (maxDepth fh)
    (negateFilters fh).
Definition set_searchPaths (v : list string) (fh : FileHound) : FileHound :=
  mkFileHound (_filters fh) v (_ignoreHiddenDirectories fh) (_isMatch fh)
    (_sync fh) (_directoriesOnly fh) (_includeStats fh) (maxDepth fh)
    (negateFilters fh).
Definition set_isMatch (v : Filter) (fh : FileHound) : FileHound :=
  mkFileHound (_filters fh) (_searchPaths fh) (_ignoreHiddenDirectories fh) v
    (_sync fh) (_directoriesOnly fh) (_includeStats fh) (maxDepth fh)
    (negateFilters fh).
Definition set_sync (v : bool) (fh : FileHound) : FileHound :=
  mkFileHound (_filters fh) (_searchPaths fh) (_ignoreHiddenDirectories fh)
    (_isMatch fh) v (_directoriesOnly fh) (_includeStats fh) (maxDepth fh)
    (negateFilters fh).

Definition addFilter (filter : Filter) (fh : FileHound) : FileHound :=
  set_filters (_filters fh ++ [filter]) fh.

Section Runtime.
(** [path.normalize] and [new RegExp(pattern).test(name)] of the
    runtime. The constructor throws a SyntaxError on a pattern that is
    not a regular expression. *)
Variable normalize : string -> string.
Variable regExpTest : string -> string -> result bool.

(** [paths(...)]; the arguments arrive as one sequence. *)
Definition paths (args : list string) (fh : FileHound) : FileHound :=
  set_searchPaths (map normalize (uniq args)) fh.

Definition path (arg : string) (fh : FileHound) : FileHound :=
  paths [arg] fh.

(** The expression is built each time the filter runs. *)
Definition isRegExpMatch (pattern : string) : Filter :=
  fun file => regExpTest pattern (getName file).

Definition discard (patterns : list string) (fh : FileHound) : FileHound :=
  fold_left (fun this pattern => addFilter (negate (isRegExpMatch pattern)) this)
            patterns fh.
End Runtime.

Definition not (fh : FileHound) : FileHound :=
  mkFileHound (_filters fh) (_searchPaths fh) (_ignoreHiddenDirectories fh)
    (_isMatch fh) (_sync fh) (_directoriesOnly fh) (_includeStats fh)
    (maxDepth fh) true.

Definition ignoreHiddenFiles (fh : FileHound) : FileHound :=
  addFilter (fun file => (h <- isHiddenSync file ;; Ok (negb h))%result) fh.

Definition ignoreHiddenDirectories (fh : FileHound) : FileHound :=
  mkFileHound (_filters fh) (_searchPaths fh) true (_isMatch fh) (_sync fh)
    (_directoriesOnly fh) (_includeStats fh) (maxDepth fh) (negateFilters fh).

Definition includeFileStats (fh : FileHound) : FileHound :=
  mkFileHound (_filters fh) (_searchPaths fh) (_ignoreHiddenDirectories fh)
    (_isMatch fh) (_sync fh) (_directoriesOnly fh) true (maxDepth fh)
    (negateFilters fh).

Definition directory (fh : FileHound) : FileHound :=
  mkFileHound (_filters fh) (_searchPaths fh) (_ignoreHiddenDirectories fh)
    (_isMatch fh) (_sync fh) true (_includeStats fh) (maxDepth fh)
    (negateFilters fh).

(** [depth(n)] *)
Definition depth (n : Z) (fh : FileHound) : FileHound :=
  mkFileHound (_filters fh) (_searchPaths fh) (_ignoreHiddenDirectories fh)
    (_isMatch fh) (_sync fh) (_directoriesOnly fh) (_includeStats fh) (Some n)
    (negateFilters fh).

(* ===================================================================== *)
(** ** Pruning, matching, resolving the roots *)

Definition _atMaxDepth (fh : FileHound) (root dir : File) : result bool :=
  (d <- getDepthSync dir ;;
   r <- getDepthSync root ;;
   let depth := d - r in
   Ok (match maxDepth fh with
       | Some m => depth >? m
       | None => false
       end))%result.

Definition _shouldFilterDirectory (fh : FileHound) (root dir : File)
  : result bool :=
  (atMax <- _atMaxDepth fh root dir ;;
   if atMax then Ok true
   else if _ignoreHiddenDirectories fh then isHiddenSync dir
   else Ok false)%result.

Definition _newMatcher (fh : FileHound) : Filter :=
  let isMatch := compose (_filters fh) in
  if negateFilters fh then negate isMatch else isMatch.

Definition _initFilters (fh : FileHound) : FileHound :=
  set_isMatch (_newMatcher fh) fh.

Definition getSearchPaths (fh : FileHound) : list string :=
  let paths :=
    match maxDepth fh with
    | Some _ => _searchPaths fh
    | None => reducePaths (_searchPaths fh)
    end in
  copy paths.

(** The outcome of the [try { isDir = file.isDirectorySync() } catch {}]
    block: [isDir] stays false when the check throws. *)
Definition isDirOrFalse (file : File) : bool :=
  match isDirectorySync file with
  | Ok b => b
  | Err _ => false
  end.

(* ===================================================================== *)
(** ** [_search] *)

(** [_search] with [this._sync] set: [getFilesSync] and the methods of
    Array. The recursive call sees the same flag. *)
Fixpoint searchArray (fh : FileHound) (root path : File) {struct path}
  : M (list File) :=
  (filtered <- lift (_shouldFilterDirectory fh root path) ;;
   if (filtered : bool) then ret []
   else
     match path with
     | mkFile _ _ _ _ _ listing =>
         match listing with
         | Err e => lift (Err e)
         | Ok files =>
             items <- mapM (fun file =>
                 if isDirOrFalse file then
                   skip <- lift (_shouldFilterDirectory fh root file) ;;
                   (if (skip : bool) then ret tt else push file) ;;;
                   sub <- searchArray fh root file ;;
                   ret (Many sub)
                 else ret (One file)) files ;;
             lift (filterR (_isMatch fh) (fold_left flatten items []))
         end
     end)%search.

(** [_search] with [this._sync] unset: the promise of [getFiles] and the
    methods of bluebird. The pruning test runs before any promise exists,
    so a pruned directory yields a plain array. *)
Fixpoint searchPromise (fh : FileHound) (root path : File) {struct path}
  : M Pending :=
  (filtered <- lift (_shouldFilterDirectory fh root path) ;;
   if (filtered : bool) then ret (Arr [])
   else
     ret (Promise
       match path with
       | mkFile _ _ _ _ _ listing =>
           match listing with
           | Err e => lift (Err e)
           | Ok files =>
               returned <- mapM (fun file =>
                   if isDirOrFalse file then
                     skip <- lift (_shouldFilterDirectory fh root file) ;;
                     (if (skip : bool) then ret tt else push file) ;;;
                     sub <- searchPromise fh root file ;;
                     ret (APending sub)
                   else ret (AOne file)) files ;;
               items <- mapM await returned ;;
               lift (filterR (_isMatch fh) (fold_left flatten items []))
           end
       end))%search.

Definition _search (fh : FileHound) (root path : File) : M Pending :=
  if _sync fh then (files <- searchArray fh root path ;; ret (Arr files))%search
  else searchPromise fh root path.

(* ===================================================================== *)
(** ** One root *)

(** [_searchSync(dir)]. The flag is set on the object and stays set; with
    it set [_search] is [searchArray]. *)
Definition _searchSync (fs : FileSystem) (fh : FileHound) (dir : string)
  : FileHound * result (list File) :=
  let this := set_sync true fh in
  let root := fs dir in
  (this,
   match searchArray this root root [] with
   | Err e => Err e
   | Ok (files, trackedPaths) =>
       if _directoriesOnly this then filterR (_isMatch this) trackedPaths
       else Ok files
   end).

(** [_searchAsync(dir)], as the outcome of the promise it returns. A throw
    inside the callback of [Promise.map] is a rejection; an array has no
    [then]. *)
Definition _searchAsync (fs : FileSystem) (this : FileHound) (dir : string)
  : result (list File) :=
  let root := fs dir in
  match _search this root root [] with
  | Err e => Err e
  | Ok (Arr _, _) => Err (TypeError "pending.then is not a function")
  | Ok (Promise settle, trackedPaths) =>
      match settle trackedPaths with
      | Err e => Err e
      | Ok (files, trackedPaths') =>
          if _directoriesOnly this then filterR (_isMatch this) trackedPaths'
          else Ok files
      end
  end.

(* ===================================================================== *)
(** ** All roots *)

Inductive MatchResult : Type :=
| PathOnly (path : string)
| PathStats (path : string) (stats : Stats).

Definition formatResult (fh : FileHound) (file : File) : result MatchResult :=
  if _includeStats fh then
    (s <- _getStatsSync file ;; Ok (PathStats (getName file) s))%result
  else Ok (PathOnly (getName file)).

Fixpoint mapR {A B} (f : A -> result B) (l : list A) : result (list B) :=
  match l with
  | [] => Ok []
  | a :: r => (b <- f a ;; bs <- mapR f r ;; Ok (b :: bs))%result
  end.

(** [.map(searchSync)]: the roots one after the other, on the object. *)
Fixpoint mapSearchSync (fs : FileSystem) (this : FileHound)
         (dirs : list string) : FileHound * result (list (list File)) :=
  match dirs with
  | [] => (this, Ok [])
  | dir :: rest =>
      let (this1, found) := _searchSync fs this dir in
      match found with
      | Err e => (this1, Err e)
      | Ok files =>
          let (this2, others) := mapSearchSync fs this1 rest in
          (this2, (o <- others ;; Ok (files :: o))%result)
      end
  end.

(** [.reduce(flatten)] without an initial value. *)
Definition reduceFlatten (onEmpty : error) (arrays : list (list File))
  : result (list File) :=
  match arrays with
  | [] => Err onEmpty
  | first :: rest =>
      Ok (fold_left (fun acc b => flatten acc (Many b)) rest first)
  end.

Definition findSync (fs : FileSystem) (fh : FileHound)
  : FileHound * result (list MatchResult) :=
  let this := _initFilters fh in
  let (this', searches) := mapSearchSync fs this (getSearchPaths this) in
  (this',
   (arrays <- searches ;;
    files <- reduceFlatten
               (TypeError "Reduce of empty array with no initial value")
               arrays ;;
    mapR (formatResult this') files)%result).

(** [find()], as the object afterwards and the outcome of the promise.
    With no root the reduction resolves to undefined, which [.map]
    refuses. When several roots reject, the first in root order is kept. *)
Definition find (fs : FileSystem) (fh : FileHound)
  : FileHound * result (list MatchResult) :=
  let this := _initFilters fh in
  (this,
   (arrays <- mapR (_searchAsync fs this) (getSearchPaths this) ;;
    files <- reduceFlatten
               (TypeError "expecting an array or an iterable object but got undefined")
               arrays ;;
    mapR (formatResult this) files)%result).

(* ===================================================================== *)
(** ** The callbacks of [.map], named *)

Definition visitSync (fh : FileHound) (root file : File) : M Item :=
  (if isDirOrFalse file then
     skip <- lift (_shouldFilterDirectory fh root file) ;;
     (if (skip : bool) then ret tt else push file) ;;;
     sub <- searchArray fh root file ;;
     ret (Many sub)
   else ret (One file))%search.

Definition visitAsync (fh : FileHound) (root file : File) : M AsyncItem :=
  (if isDirOrFalse file then
     skip <- lift (_shouldFilterDirectory fh root file) ;;
     (if (skip : bool) then ret tt else push file) ;;;
     sub <- searchPromise fh root file ;;
     ret (APending sub)
   else ret (AOne file))%search.

(** The promise of a listing that was not pruned. *)
Definition listingPromise (fh : FileHound) (root path : File) : M (list File) :=
  (files <- lift (getFilesSync path) ;;
   returned <- mapM (visitAsync fh root) files ;;
   items <- mapM await returned ;;
   lift (filterR (_isMatch fh) (fold_left flatten items [])))%search.

(** What a caller that awaits the value of [_search] receives. *)
Definition settled (fh : FileHound) (root path : File) : M (list File) :=
  (p <- _search fh root path ;;
   match p with
   | Arr l => ret l
   | Promise settle => settle
   end)%search.

(** The entries of a listing that was asked for in the search of [top]:
    [top] itself unless it is pruned, and below it every directory that is
    not pruned, through directories that are not pruned. *)
Inductive Listed (fh : FileHound) (root : File) : File -> File -> Prop :=
| Listed_here top :
    _shouldFilterDirectory fh root top = Ok false ->
    Listed fh root top top
| Listed_below top files c d :
    _shouldFilterDirectory fh root top = Ok false ->
    getFilesSync top = Ok files ->
    In c files ->
    isDirOrFalse c = true ->
    Listed fh root c d ->
    Listed fh root top d.

(** [f] is an entry of the listing of [d]. *)
Definition child (d f : File) : Prop :=
  exists files, getFilesSync d = Ok files /\ In f files.

(** A computation whose outcome does not depend on what [trackedPaths]
    holds already and which only appends to it. *)
Definition Appender {A} (m : M A) : Prop :=
  forall st,
    m st = match m [] with
           | Ok (a, p) => Ok (a, st ++ p)
           | Err e => Err e
           end.

(** Two outcomes agree: both throw, or both return the same value and have
    pushed the same entries, in some order. *)
Definition agree {A} (x y : result (A * Store)) : Prop :=
  match x, y with
  | Ok (a, p), Ok (b, q) => a = b /\ Permutation p q
  | Err _, Err _ => True
  | _, _ => False
  end.

(* ===================================================================== *)
(** ** What a search may return *)

(** The entries one root may contribute: in file mode the non-directories
    of the listings asked for, in directory mode the directories pushed to
    [trackedPaths]; in both, only those the effective predicate accepts. *)
Definition Found (fh : FileHound) (root f : File) : Prop :=
  exists d,
    Listed fh root root d /\ child d f /\ _isMatch fh f = Ok true /\
    if _directoriesOnly fh
    then isDirOrFalse f = true /\ _shouldFilterDirectory fh root f = Ok false
    else isDirOrFalse f = false.

(** [d] is reached from [top] through directories none of which is
    hidden, [top] and [d] included. *)
Inductive Visible : File -> File -> Prop :=
| Visible_here top :
    isHiddenSync top = Ok false -> Visible top top
| Visible_below top c d :
    isHiddenSync top = Ok false -> child top c -> Visible c d ->
    Visible top d.

(** What [depth(0)] relies on from [getDepthSync]: a directory found in
    the listing of [root] reports a greater depth than [root] does. *)
Definition deeper_children (root : File) : Prop :=
  forall c dr dc,
    child root c -> isDirOrFalse c = true ->
    getDepthSync root = Ok dr -> getDepthSync c = Ok dc ->
    dr < dc.

(** Nothing but the directory test throws below [f]: the depth and the
    hidden flag of every entry are known, the listing of every entry taken
    for a directory succeeds, and the predicate answers on every other
    entry. The directory test itself is left free. *)
Fixpoint quiet (fh : FileHound) (f : File) {struct f} : bool :=
  match f with
  | mkFile _ d h _ _ listing =>
      isOk d && isOk h &&
      if isDirOrFalse f then
        match listing with
        | Ok entries => forallb (quiet fh) entries
        | Err _ => false
        end
      else isOk (_isMatch fh f)
  end.

(** The same for the directory a walk starts from, which is listed
    whatever its own directory test says. *)
Definition quietTop (fh : FileHound) (top : File) : bool :=
  isOk (getDepthSync top) && isOk (isHiddenSync top) &&
  match getFilesSync top with
  | Ok entries => forallb (quiet fh) entries
  | Err _ => false
  end.

(* ===================================================================== *)
(** ** Sample file systems *)

Definition regular (name : string) (d : Z) : File :=
  mkFile name (Ok d) (Ok false) (Ok false) (Ok (mkStats 1 0))
         (Err (FsError "ENOTDIR")).

Definition folder (name : string) (d : Z) (isHidden : bool)
           (listing : result (list File)) : File :=
  mkFile name (Ok d) (Ok isHidden) (Ok true) (Ok (mkStats 0 0)) listing.

(** An entry whose stat fails, such as a dangling link. *)
Definition dangling (name : string) (d : Z) : File :=
  mkFile name (Ok d) (Ok false) (Err (FsError "ENOENT"))
         (Err (FsError "ENOENT")) (Err (FsError "ENOENT")).

Definition missing (name : string) : File :=
  mkFile name (Err (FsError "ENOENT")) (Err (FsError "ENOENT"))
         (Err (FsError "ENOENT")) (Err (FsError "ENOENT"))
         (Err (FsError "ENOENT")).

Fixpoint mount (trees : list File) : FileSystem :=
  fun p =>
    match trees with
    | [] => missing p
    | t :: rest => if String.eqb (getName t) p then t else mount rest p
    end.

(** /r/{a.txt, b.json, sub/c.txt} *)
Definition sub_c : File :=
  folder "/r/sub" 2 false (Ok [regular "/r/sub/c.txt" 2]).
Definition tree_r : File :=
  folder "/r" 1 false (Ok [regular "/r/a.txt" 1; regular "/r/b.json" 1; sub_c]).

(** The same with /r/sub unreadable. *)
Definition sub_denied : File :=
  folder "/r/sub" 2 false (Err (FsError "EACCES")).
Definition tree_denied : File :=
  folder "/r" 1 false (Ok [regular "/r/a.txt" 1; sub_denied]).

(** /p/{x.js, .git/config, src/y.js, src/.cache/z.js} *)
Definition dot_git : File :=
  folder "/p/.git" 2 true (Ok [regular "/p/.git/config" 2]).
Definition dot_cache : File :=
  folder "/p/src/.cache" 3 true (Ok [regular "/p/src/.cache/z.js" 3]).
Definition src_dir : File :=
  folder "/p/src" 2 false (Ok [regular "/p/src/y.js" 2; dot_cache]).
Definition tree_p : File :=
  folder "/p" 1 false (Ok [regular "/p/x.js" 1; dot_git; src_dir]).

(** /q/{link, a.txt} where the stat of link fails. *)
Definition tree_q : File :=
  folder "/q" 1 false (Ok [dangling "/q/link" 1; regular "/q/a.txt" 1]).

(** /a/{b/{c.txt}} *)
Definition a_b : File := folder "/a/b" 2 false (Ok [regular "/a/b/c.txt" 2]).
Definition tree_a : File := folder "/a" 1 false (Ok [a_b]).



Definition sampleFs : FileSystem :=
  mount [tree_r; tree_p; dot_git; tree_q; tree_a; a_b].

Definition deniedFs : FileSystem := mount [tree_denied].

(** A filter on the name, standing for [ext("txt")]. *)
Fixpoint endsWith (suffix s : string) : bool :=
  String.eqb suffix s ||
  match s with
  | EmptyString => false
  | String _ r => endsWith suffix r
  end.

Definition ext_txt : Filter := fun file => Ok (endsWith ".txt" (getName file)).

(* ===================================================================== *)
(** ** Notions the proofs go through *)

(** The entries an element of the mapped array adds when flattened. *)
Definition unItem (i : Item) : list File :=
  match i with
  | One f => [f]
  | Many l => l
  end.

(** The directories pushed to [trackedPaths] in the walk of [top]. *)
Definition Tracked (fh : FileHound) (root top c : File) : Prop :=
  exists d, Listed fh root top d /\ child d c /\ isDirOrFalse c = true /\
            _shouldFilterDirectory fh root c = Ok false.

(** An outcome from the empty array, replayed after [st]. *)
Definition shift {A} (st : Store) (r : result (A * Store))
  : result (A * Store) :=
  match r with
  | Ok (a, p) => Ok (a, st ++ p)
  | Err e => Err e
  end.

(** What the callback of bluebird's [.map] pushes for an entry, and what
    it returns. *)
Definition pushesOf (fh : FileHound) (root c : File) : result (list File) :=
  if isDirOrFalse c then
    (skip <- _shouldFilterDirectory fh root c ;;
     Ok (if (skip : bool) then [] else [c]))%result
  else Ok [].

Definition asyncItemOf (fh : FileHound) (root c : File) : AsyncItem :=
  if isDirOrFalse c then
    match _shouldFilterDirectory fh root c with
    | Ok false => APending (Promise (listingPromise fh root c))
    | _ => APending (Arr [])
    end
  else AOne c.

(** What the first pass over a listing pushes. *)
Fixpoint pushesAll (fh : FileHound) (root : File) (files : list File)
  : result (list File) :=
  match files with
  | [] => Ok []
  | c :: r =>
      (p <- pushesOf fh root c ;; q <- pushesAll fh root r ;; Ok (p ++ q))%result
  end.

(** What is known of an entry once everything below it is settled. *)
Definition Settles (fh : FileHound) (root c : File) : Prop :=
  Appender (listingPromise fh root c) /\
  (_shouldFilterDirectory fh root c = Ok false ->
   agree (searchArray fh root c []) (listingPromise fh root c [])).

(** What a root contributes once its walk is over. *)
Definition rootOutcome (fh : FileHound) (walk : result (list File * Store))
  : result (list File) :=
  match walk with
  | Err e => Err e
  | Ok (files, trackedPaths) =>
      if _directoriesOnly fh then filterR (_isMatch fh) trackedPaths
      else Ok files
  end.

(** What [_searchSync] returns, the flag aside. *)
Definition rootSync (fs : FileSystem) (fh : FileHound) (dir : string)
  : result (list File) :=
  rootOutcome fh (searchArray fh (fs dir) (fs dir) []).

(** Two outcomes of a root or of a whole search agree: both fail, or both
    return the same matches, in some order. *)
Definition sameMatches {A} (x y : result (list A)) : Prop :=
  match x, y with
  | Ok a, Ok b => Permutation a b
  | Err _, Err _ => True
  | _, _ => False
  end.

(** The chain both [find] and [findSync] run over the roots. *)
Definition pipeline (fh : FileHound) (onEmpty : error)
           (search : string -> result (list File)) (roots : list string)
  : result (list MatchResult) :=
  (arrays <- mapR search roots ;;
   files <- reduceFlatten onEmpty arrays ;;
   mapR (formatResult fh) files)%result.

(* ===================================================================== *)
(** ** The configuration calls and the requests of the scenarios *)

(** The configuration calls other than [path] and [paths]. The filters
    [modified], [accessed], [changed], [ext], [size], [isEmpty], [glob],
    [match] and [socket] are calls of [addFilter]. *)
Inductive Setting : Type :=
| CallAddFilter (filter : Filter)
| CallDiscard (patterns : list string)
| CallNot
| CallIgnoreHiddenFiles
| CallIgnoreHiddenDirectories
| CallIncludeFileStats
| CallDirectory
| CallDepth (n : Z).

Definition call (regExpTest : string -> string -> result bool) (s : Setting)
           (fh : FileHound) : FileHound :=
  match s with
  | CallAddFilter filter => addFilter filter fh
  | CallDiscard patterns => discard regExpTest patterns fh
  | CallNot => not fh
  | CallIgnoreHiddenFiles => ignoreHiddenFiles fh
  | CallIgnoreHiddenDirectories => ignoreHiddenDirectories fh
  | CallIncludeFileStats => includeFileStats fh
  | CallDirectory => directory fh
  | CallDepth n => depth n fh
  end.

Definition configure (regExpTest : string -> string -> result bool)
           (calls : list Setting) (fh : FileHound) : FileHound :=
  fold_left (fun this s => call regExpTest s this) calls fh.

(** The request of the scenarios: root /r, files ending in .txt. *)
Definition txt_under_r : FileHound :=
  addFilter ext_txt (paths posix_normalize ["/r"] (create "/home")).


(** The request of the scenario: root /p, hidden directories ignored. *)
Definition visible_under_p : FileHound :=
  ignoreHiddenDirectories (paths posix_normalize ["/p"] (create "/home")).

(** The request of the scenario: root /q, no filter, as [find] has
    prepared it. *)
Definition all_under_q : FileHound :=
  _initFilters (paths posix_normalize ["/q"] (create "/home")).

(** The request of the failing scenario: the hidden directory /p/.git as
    the root, hidden directories ignored. *)
Definition hidden_root : FileHound :=
  ignoreHiddenDirectories (paths posix_normalize ["/p/.git"] (create "/home")).

(** The request of the scenario: the roots /a and /a/b. *)
Definition nested_roots : FileHound :=
  paths posix_normalize ["/a"; "/a/b"] (create "/home").

(** A stand-in for [new RegExp(pattern).test(name)]: a pattern that
    begins with a quantifier is refused, as "*.tmp*" is, and any other is
    looked for at the end of the name. *)
Definition sampleRegExp (pattern name : string) : result bool :=
  if String.prefix "*" pattern then Err (SyntaxError "Nothing to repeat")
  else Ok (endsWith pattern name).

(** Two filters, the first accepting everything and the second nothing,
    under the toggle. *)
Definition accept_reject : FileHound :=
  not (addFilter (fun _ => Ok false) (addFilter (fun _ => Ok true) (create "/home"))).

(* ===================================================================== *)
(** ** The filters on extension and glob, and [FileHound.any] *)

Section FileQueries.
(** [file.getPathExtension()] and [file.isMatch(globPattern)] of file-js;
    neither consults the file system. *)
Variable getPathExtension : File -> string.
Variable isMatch : File -> string -> bool.

(** [_.startsWith(ext, '.')] *)
Definition startsWithDot (ext : string) : bool :=
  match ext with
  | String c _ => Ascii.eqb c "."%char
  | EmptyString => false
  end.

(** [ext.slice(1)] *)
Definition slice1 (ext : string) : string :=
  match ext with
  | String _ r => r
  | EmptyString => EmptyString
  end.

Definition cleanExtension (ext : string) : string :=
  if startsWithDot ext then slice1 ext else ext.

(** [_.includes(array, value)] on strings. *)
Definition includes (array : list string) (value : string) : bool :=
  existsb (String.eqb value) array.

(** [ext(...)]; the arguments arrive as one sequence. *)
Definition ext (args : list string) (fh : FileHound) : FileHound :=
  let extensions := map cleanExtension args in
  addFilter (fun file => Ok (includes extensions (getPathExtension file))) fh.

(** The argument of [match]: an array of patterns, or one pattern. *)
Inductive GlobPatterns : Type :=
| PatternArray (patterns : list string)
| PatternString (pattern : string).

(** Whether [array[0]] is truthy, for an array of strings: the empty
    string and undefined are not. *)
Definition firstIsTruthy (array : list string) : bool :=
  match array with
  | [] => false
  | EmptyString :: _ => false
  | String _ _ :: _ => true
  end.

(** [match(globPatterns)] *)
Definition match_ (globPatterns : GlobPatterns) (fh : FileHound) : FileHound :=
  match globPatterns with
  | PatternArray patterns =>
      addFilter (fun file =>
                   Ok (firstIsTruthy
                         (filter (fun globPattern => isMatch file globPattern)
                                 patterns)))
                fh
  | PatternString pattern =>
      addFilter (fun file => Ok (isMatch file pattern)) fh
  end.

(** [glob(...)] *)
Definition glob (args : list string) (fh : FileHound) : FileHound :=
  match_ (PatternArray args) fh.
End FileQueries.

(** [FileHound.any(...)], on the outcomes of the promises it is given:
    [Promise.all] rejects with the first rejection, [.reduce(flatten, [])]
    joins the arrays. *)
Definition any (args : list (result (list MatchResult)))
  : result (list MatchResult) :=
  (arrays <- mapR (fun promise => promise) args ;;
   Ok (fold_left (fun a b => a ++ b) arrays []))%result.

(* ===================================================================== *)
(** ** The walk without its effects *)

(** The effective predicate answers true. *)
Definition accepted (fh : FileHound) (f : File) : bool :=
  match _isMatch fh f with
  | Ok true => true
  | _ => false
  end.

(** The entries handed to the predicate in the walk of [top], depth first
    and in listing order: the non-directories of every listing asked
    for. *)
Fixpoint visited (fh : FileHound) (root top : File) {struct top} : list File :=
  match top with
  | mkFile _ _ _ _ _ listing =>
      match _shouldFilterDirectory fh root top with
      | Ok false =>
          match listing with
          | Ok entries =>
              flat_map (fun c => if isDirOrFalse c then visited fh root c
                                 else [c])
                       entries
          | Err _ => []
          end
      | _ => []
      end
  end.

(** Two outcomes are the same: both fail, or both return the same list in
    the same order. *)
Definition sameOutcome {A} (x y : result (list A)) : Prop :=
  match x, y with
  | Ok a, Ok b => a = b
  | Err _, Err _ => True
  | _, _ => False
  end.

(** The path of a formatted match. *)
Definition pathOf (m : MatchResult) : string :=
  match m with
  | PathOnly p => p
  | PathStats p _ => p
  end.

(** Two objects that prune and match alike. *)
Definition sameWalk (fh fh' : FileHound) : Prop :=
  (forall root d,
     _shouldFilterDirectory fh root d = _shouldFilterDirectory fh' root d) /\
  (forall f, _isMatch fh f = _isMatch fh' f).

(* ===================================================================== *)
(** * Properties *)

(** ** Unfolding [_search] *)

Lemma searchArray_eq fh root path :
  searchArray fh root path =
  (filtered <- lift (_shouldFilterDirectory fh root path) ;;
   if (filtered : bool) then ret []
   else
     files <- lift (getFilesSync path) ;;
     items <- mapM (visitSync fh root) files ;;
     lift (filterR (_isMatch fh) (fold_left flatten items [])))%search.
Proof. destruct path as [n d h i s [l|e]]; reflexivity. Qed.

Lemma searchPromise_eq fh root path :
  searchPromise fh root path =
  (filtered <- lift (_shouldFilterDirectory fh root path) ;;
   if (filtered : bool) then ret (Arr [])
   else ret (Promise (listingPromise fh root path)))%search.
Proof. destruct path as [n d h i s [l|e]]; reflexivity. Qed.

(** ** Computations that only append *)

Lemma Appender_ret A (a : A) : Appender (ret a).
Proof. intros st. unfold ret. now rewrite app_nil_r. Qed.

Lemma Appender_lift A (r : result A) : Appender (lift r).
Proof. intros st. unfold lift. destruct r; [now rewrite app_nil_r | reflexivity]. Qed.

Lemma Appender_push file : Appender (push file).
Proof. intros st. reflexivity. Qed.

Lemma Appender_bind A B (m : M A) (k : A -> M B) :
  Appender m -> (forall a, Appender (k a)) -> Appender (bind m k).
Proof.
  intros Hm Hk st. unfold bind. rewrite (Hm st).
  destruct (m []) as [[a p]|e]; [|reflexivity].
  rewrite (Hk a (st ++ p)), (Hk a p).
  destruct (k a []) as [[b q]|e]; [|reflexivity].
  now rewrite app_assoc.
Qed.

Lemma Appender_mapM A B (f : A -> M B) (l : list A) :
  Forall (fun a => Appender (f a)) l -> Appender (mapM f l).
Proof.
  induction 1 as [|a r Ha _ IH]; simpl.
  - apply Appender_ret.
  - apply Appender_bind; [exact Ha|]. intros b.
    apply Appender_bind; [exact IH|]. intros bs. apply Appender_ret.
Qed.

Lemma Appender_bind_lift A B (r : result A) (k : A -> M B) :
  (forall a, r = Ok a -> Appender (k a)) -> Appender (bind (lift r) k).
Proof.
  intros Hk. destruct r as [a|e].
  - intros st. unfold bind, lift. apply (Hk a eq_refl).
  - intros st. reflexivity.
Qed.

Create HintDb appender.
#[local] Hint Resolve Appender_ret Appender_lift Appender_push : appender.

Lemma Appender_visitSync fh root file :
  Appender (searchArray fh root file) -> Appender (visitSync fh root file).
Proof.
  intros H. unfold visitSync. destruct (isDirOrFalse file); auto with appender.
  apply Appender_bind; auto with appender. intros skip.
  apply Appender_bind; [destruct skip; auto with appender|]. intros _.
  apply Appender_bind; auto with appender.
Qed.

Lemma Appender_searchArray fh root path : Appender (searchArray fh root path).
Proof.
  induction path as [n d h i s e | n d h i s l IH] using File_ind;
    rewrite searchArray_eq;
    (apply Appender_bind; auto with appender; intros [|]; auto with appender);
    apply Appender_bind_lift; simpl; intros files Hfiles; [discriminate|].
  injection Hfiles as <-.
  apply Appender_bind; auto with appender.
  apply Appender_mapM.
  eapply Forall_impl; [|exact IH]. intros c. apply Appender_visitSync.
Qed.

(** ** [.map], [.reduce(flatten, [])] and [.filter] *)

Lemma fold_flatten items acc :
  fold_left flatten items acc = acc ++ flat_map unItem items.
Proof.
  revert acc. induction items as [|i r IH]; intros acc; simpl.
  - now rewrite app_nil_r.
  - rewrite IH. unfold flatten. rewrite <- app_assoc. now destruct i.
Qed.

Lemma filterR_In p l l' :
  filterR p l = Ok l' -> forall x, In x l' <-> In x l /\ p x = Ok true.
Proof.
  revert l'. induction l as [|y r IH]; simpl; intros l' H x.
  - injection H as <-. simpl. tauto.
  - destruct (p y) as [b|e] eqn:Hy; simpl in H; [|discriminate].
    destruct (filterR p r) as [rest|e]; simpl in H; [|discriminate].
    injection H as <-. specialize (IH rest eq_refl x).
    destruct b; simpl; rewrite IH; intuition (subst; auto); congruence.
Qed.

Lemma filterR_Err p l x e :
  In x l -> p x = Err e -> exists e', filterR p l = Err e'.
Proof.
  induction l as [|y r IH]; simpl; [tauto|]. intros [->|Hin] Hx.
  - rewrite Hx. simpl. eauto.
  - destruct (p y); simpl; eauto.
    destruct (IH Hin Hx) as [e' ->]. simpl. eauto.
Qed.

Lemma filterR_Ok p l :
  (forall x, In x l -> exists b, p x = Ok b) -> exists l', filterR p l = Ok l'.
Proof.
  induction l as [|y r IH]; simpl; intros H; eauto.
  destruct (H y (or_introl eq_refl)) as [b ->]. simpl.
  destruct IH as [rest ->]; [intros; apply H; auto|]. simpl. eauto.
Qed.

Section MapM_facts.
Variables A B : Type.
Variable f : A -> M B.

Lemma mapM_In_item l : forall st items st',
  mapM f l st = Ok (items, st') ->
  forall item, In item items ->
    exists a s1 s2, In a l /\ f a s1 = Ok (item, s2).
Proof.
  induction l as [|a r IH]; simpl; intros st items st' H item Hin.
  - injection H as <- <-. destruct Hin.
  - unfold bind in H. destruct (f a st) as [[b s1]|e] eqn:Ha; [|discriminate].
    destruct (mapM f r s1) as [[bs s2]|e] eqn:Hr; [|discriminate].
    injection H as <- <-. destruct Hin as [<-|Hin].
    + exists a, st, s1. auto.
    + destruct (IH _ _ _ Hr item Hin) as (a' & t1 & t2 & Ha' & Hf).
      exists a', t1, t2. auto.
Qed.

Lemma mapM_In_arg l : forall st items st',
  mapM f l st = Ok (items, st') ->
  forall a, In a l ->
    exists item s1 s2, f a s1 = Ok (item, s2) /\ In item items.
Proof.
  induction l as [|a r IH]; simpl; intros st items st' H x Hin; [destruct Hin|].
  unfold bind in H. destruct (f a st) as [[b s1]|e] eqn:Ha; [|discriminate].
  destruct (mapM f r s1) as [[bs s2]|e] eqn:Hr; [|discriminate].
  injection H as <- <-. destruct Hin as [<-|Hin].
  - exists b, st, s1. simpl. auto.
  - destruct (IH _ _ _ Hr x Hin) as (item & t1 & t2 & Hf & Hi).
    exists item, t1, t2. simpl. auto.
Qed.

Lemma mapM_Err l a :
  In a l -> (forall s, exists e, f a s = Err e) ->
  forall st, exists e, mapM f l st = Err e.
Proof.
  induction l as [|y r IH]; simpl; intros Hin Hf st; [destruct Hin|].
  unfold bind. destruct Hin as [->|Hin].
  - destruct (Hf st) as [e ->]. eauto.
  - destruct (f y st) as [[b s1]|e]; eauto.
    destruct (IH Hin Hf s1) as [e ->]. eauto.
Qed.

Lemma mapM_Ok l :
  (forall a s, In a l -> exists b s', f a s = Ok (b, s')) ->
  forall st, exists items st', mapM f l st = Ok (items, st').
Proof.
  induction l as [|y r IH]; simpl; intros Hf st; [unfold ret; eauto|].
  unfold bind. destruct (Hf y st (or_introl eq_refl)) as (b & s1 & ->).
  destruct (IH (fun a s Ha => Hf a s (or_intror Ha)) s1) as (bs & s2 & ->).
  unfold ret. eauto.
Qed.

(** What [trackedPaths] holds after the loop was pushed by a callback. *)
Lemma mapM_store_sound (Q : File -> Prop) l : forall st items st',
  mapM f l st = Ok (items, st') ->
  (forall a s r s', In a l -> f a s = Ok (r, s') ->
     forall c, In c s' -> In c s \/ Q c) ->
  forall c, In c st' -> In c st \/ Q c.
Proof.
  induction l as [|a r IH]; simpl; intros st items st' H Hf c Hc.
  - injection H as <- <-. auto.
  - unfold bind in H. destruct (f a st) as [[b s1]|e] eqn:Ha; [|discriminate].
    destruct (mapM f r s1) as [[bs s2]|e] eqn:Hr; [|discriminate].
    injection H as <- <-.
    destruct (IH _ _ _ Hr (fun a' s r' s' Hin => Hf a' s r' s' (or_intror Hin)) c Hc)
      as [Hs1|HQ]; auto.
    eapply Hf; eauto.
Qed.

Lemma mapM_store_mono l : forall st items st',
  mapM f l st = Ok (items, st') ->
  (forall a s r s', In a l -> f a s = Ok (r, s') -> incl s s') ->
  incl st st'.
Proof.
  induction l as [|a r IH]; simpl; intros st items st' H Hf.
  - injection H as <- <-. apply incl_refl.
  - unfold bind in H. destruct (f a st) as [[b s1]|e] eqn:Ha; [|discriminate].
    destruct (mapM f r s1) as [[bs s2]|e] eqn:Hr; [|discriminate].
    injection H as <- <-.
    eapply incl_tran; [eapply Hf; eauto|].
    eapply IH; eauto.
Qed.

Lemma mapM_store_complete l : forall st items st',
  mapM f l st = Ok (items, st') ->
  (forall a s r s', In a l -> f a s = Ok (r, s') -> incl s s') ->
  forall a c, In a l ->
    (forall s r s', f a s = Ok (r, s') -> In c s') ->
    In c st'.
Proof.
  induction l as [|y r IH]; simpl; intros st items st' H Hmono a c Hin Hc;
    [destruct Hin|].
  unfold bind in H. destruct (f y st) as [[b s1]|e] eqn:Ha; [|discriminate].
  destruct (mapM f r s1) as [[bs s2]|e] eqn:Hr; [|discriminate].
  injection H as <- <-. destruct Hin as [->|Hin].
  - eapply mapM_store_mono; [exact Hr| |eapply Hc; eauto].
    intros; eapply Hmono; eauto.
  - eapply IH; eauto.
Qed.
End MapM_facts.

(** ** The synchronous walk, case by case *)

Lemma searchArray_Ok_inv fh root top st l st' :
  searchArray fh root top st = Ok (l, st') ->
  (_shouldFilterDirectory fh root top = Ok true /\ l = [] /\ st' = st)
  \/ (_shouldFilterDirectory fh root top = Ok false /\
      exists files items,
        getFilesSync top = Ok files /\
        mapM (visitSync fh root) files st = Ok (items, st') /\
        filterR (_isMatch fh) (flat_map unItem items) = Ok l).
Proof.
  rewrite searchArray_eq. unfold bind, lift, ret.
  destruct (_shouldFilterDirectory fh root top) as [[|]|e]; [| |discriminate].
  - intros H. injection H as <- <-. auto.
  - destruct (getFilesSync top) as [files|e]; [|discriminate].
    destruct (mapM (visitSync fh root) files st) as [[items s1]|e] eqn:Hm;
      [|discriminate].
    rewrite fold_flatten. simpl.
    destruct (filterR (_isMatch fh) (flat_map unItem items)) as [l0|e] eqn:Hf;
      [|discriminate].
    intros H. injection H as <- <-. right. split; [reflexivity|].
    exists files, items. auto.
Qed.

Lemma visitSync_Ok_inv fh root c s item s' :
  visitSync fh root c s = Ok (item, s') ->
  (isDirOrFalse c = false /\ item = One c /\ s' = s)
  \/ (isDirOrFalse c = true /\
      exists skip sub,
        _shouldFilterDirectory fh root c = Ok skip /\
        item = Many sub /\
        searchArray fh root c (if (skip : bool) then s else s ++ [c])
          = Ok (sub, s')).
Proof.
  unfold visitSync. destruct (isDirOrFalse c).
  - unfold bind, lift, ret, push.
    destruct (_shouldFilterDirectory fh root c) as [skip|e]; [|discriminate].
    intros H. right. split; [reflexivity|]. exists skip.
    destruct skip;
      match type of H with
      | context [searchArray ?a ?b ?c ?d] =>
          destruct (searchArray a b c d) as [[sub s1]|e] eqn:Hs; [|discriminate]
      end; injection H as <- <-; eauto.
  - unfold ret. intros H. injection H as <- <-. auto.
Qed.

Lemma searchArray_store fh root top st l st' :
  searchArray fh root top st = Ok (l, st') ->
  exists p, st' = st ++ p /\ searchArray fh root top [] = Ok (l, p).
Proof.
  rewrite (Appender_searchArray fh root top st).
  destruct (searchArray fh root top []) as [[a p]|e]; [|discriminate].
  intros H. injection H as <- <-. eauto.
Qed.

Lemma searchArray_mono fh root top st l st' :
  searchArray fh root top st = Ok (l, st') -> incl st st'.
Proof.
  intros H. destruct (searchArray_store _ _ _ _ H) as (p & -> & _).
  apply incl_appl, incl_refl.
Qed.

Lemma visitSync_mono fh root c s item s' :
  visitSync fh root c s = Ok (item, s') -> incl s s'.
Proof.
  intros H. destruct (visitSync_Ok_inv _ _ _ _ H)
    as [(_ & _ & ->)|(_ & skip & sub & _ & _ & Hs)]; [apply incl_refl|].
  apply searchArray_mono in Hs. destruct skip; [exact Hs|].
  eapply incl_tran; [|exact Hs]. apply incl_appl, incl_refl.
Qed.

(** Every entry the walk returns is a non-directory of a listing that was
    asked for, and the effective predicate holds of it. *)
Lemma searchArray_sound fh root top :
  forall st l st',
    searchArray fh root top st = Ok (l, st') ->
    forall f, In f l ->
      exists d, Listed fh root top d /\ child d f /\
                isDirOrFalse f = false /\ _isMatch fh f = Ok true.
Proof.
  induction top as [n dp h i s e | n dp h i s files IH] using File_ind;
    intros st l st' H f Hf;
    destruct (searchArray_Ok_inv _ _ _ _ H)
      as [(_ & -> & _)|(Hnf & files' & items & Hl & Hm & Hfil)];
    try (now destruct Hf); simpl in Hl; [discriminate|].
  injection Hl as <-.
  apply (filterR_In _ _ Hfil) in Hf. destruct Hf as [Hf Hmatch].
  apply in_flat_map in Hf. destruct Hf as (item & Hitem & Hf).
  destruct (mapM_In_item _ _ _ Hm _ Hitem) as (c & s1 & s2 & Hc & Hv).
  destruct (visitSync_Ok_inv _ _ _ _ Hv)
    as [(Hnd & -> & _)|(Hd & skip & sub & _ & -> & Hs)]; simpl in Hf.
  - destruct Hf as [<-|[]].
    exists (mkFile n dp h i s (Ok files)). split; [now apply Listed_here|].
    split; [exists files; auto|auto].
  - rewrite Forall_forall in IH.
    destruct (IH c Hc _ _ _ Hs f Hf) as (d & Hd' & Hrest).
    exists d. split; [|exact Hrest].
    eapply Listed_below with (files := files) (c := c); eauto.
Qed.

(** Every non-directory of a listing that was asked for is returned when
    the effective predicate holds of it. *)
Lemma searchArray_complete fh root top d :
  Listed fh root top d ->
  forall st l st' f,
    searchArray fh root top st = Ok (l, st') ->
    child d f -> isDirOrFalse f = false -> _isMatch fh f = Ok true ->
    In f l.
Proof.
  induction 1 as [top Hnf | top files c d Hnf Hl Hc Hd _ IH];
    intros st l st' f H Hch Hnd Hmatch;
    destruct (searchArray_Ok_inv _ _ _ _ H)
      as [(Hf & _)|(_ & files' & items & Hl' & Hm & Hfil)];
    try congruence; apply (filterR_In _ _ Hfil); split; auto;
    apply in_flat_map.
  - destruct Hch as (fl & Hfl & Hin). assert (fl = files') by congruence. subst fl.
    destruct (mapM_In_arg _ _ _ Hm _ Hin) as (item & s1 & s2 & Hv & Hitem).
    exists item. split; [exact Hitem|].
    destruct (visitSync_Ok_inv _ _ _ _ Hv)
      as [(_ & -> & _)|(Hd & _)]; [simpl; auto|congruence].
  - assert (files' = files) by congruence. subst files'.
    destruct (mapM_In_arg _ _ _ Hm _ Hc) as (item & s1 & s2 & Hv & Hitem).
    exists item. split; [exact Hitem|].
    destruct (visitSync_Ok_inv _ _ _ _ Hv)
      as [(Hd' & _)|(_ & skip & sub & _ & -> & Hs)]; [congruence|].
    simpl. eapply IH; eauto.
Qed.

(** A failure in the walk of a listed directory fails the walk of the
    directory on top. *)
Lemma searchArray_fails_below fh root top d :
  Listed fh root top d ->
  (forall st, exists e, searchArray fh root d st = Err e) ->
  forall st, exists e, searchArray fh root top st = Err e.
Proof.
  induction 1 as [top Hnf | top files c d Hnf Hl Hc Hd _ IH]; intros Hfail st;
    [apply Hfail|].
  rewrite searchArray_eq. unfold bind at 1. unfold lift at 1. rewrite Hnf.
  unfold bind at 1. unfold lift at 1. rewrite Hl.
  unfold bind at 1.
  destruct (mapM_Err (visitSync fh root) files c Hc) with (st := st) as [e ->];
    eauto.
  intros s. unfold visitSync. rewrite Hd. unfold bind, lift, ret, push.
  destruct (_shouldFilterDirectory fh root c) as [skip|e]; eauto.
  destruct skip.
  - destruct (IH Hfail s) as [e ->]. eauto.
  - destruct (IH Hfail (s ++ [c])) as [e ->]. eauto.
Qed.

Lemma Listed_snoc fh root top d c :
  Listed fh root top d -> child d c -> isDirOrFalse c = true ->
  _shouldFilterDirectory fh root c = Ok false ->
  Listed fh root top c.
Proof.
  induction 1 as [top Hnf | top files c' d Hnf Hl Hc Hd _ IH];
    intros Hch Hdir Hnfc.
  - destruct Hch as (files & Hl & Hin).
    eapply Listed_below; eauto. now apply Listed_here.
  - eapply Listed_below; eauto.
Qed.

Lemma Tracked_below fh root top files c x :
  _shouldFilterDirectory fh root top = Ok false ->
  getFilesSync top = Ok files -> In c files -> isDirOrFalse c = true ->
  Tracked fh root c x -> Tracked fh root top x.
Proof.
  intros Hnf Hl Hc Hd (d & HL & Hrest). exists d. split; [|exact Hrest].
  eapply Listed_below; eauto.
Qed.

Lemma searchArray_tracked_sound fh root top :
  forall st l st',
    searchArray fh root top st = Ok (l, st') ->
    forall x, In x st' -> In x st \/ Tracked fh root top x.
Proof.
  induction top as [n dp h i s e | n dp h i s files IH] using File_ind;
    intros st l st' H x Hx;
    destruct (searchArray_Ok_inv _ _ _ _ H)
      as [(_ & _ & ->)|(Hnf & files' & items & Hl & Hm & Hfil)];
    auto; simpl in Hl; [discriminate|].
  injection Hl as <-. rewrite Forall_forall in IH.
  set (top := mkFile n dp h i s (Ok files)) in *.
  eapply mapM_store_sound with (Q := Tracked fh root top); [exact Hm| |exact Hx].
  intros c s1 r s2 Hc Hv y Hy.
  destruct (visitSync_Ok_inv _ _ _ _ Hv)
    as [(_ & _ & ->)|(Hd & skip & sub & Hskip & _ & Hs)]; auto.
  destruct (IH c Hc _ _ _ Hs y Hy) as [Hin|Ht].
  - destruct skip; auto. apply in_app_or in Hin. destruct Hin as [Hin|[<-|[]]]; auto.
    right. exists top. split; [now apply Listed_here|].
    split; [exists files; auto|auto].
  - right. eapply Tracked_below with (files := files) (c := c); eauto.
Qed.

Lemma searchArray_tracked_complete fh root top d :
  Listed fh root top d ->
  forall st l st' x,
    searchArray fh root top st = Ok (l, st') ->
    child d x -> isDirOrFalse x = true ->
    _shouldFilterDirectory fh root x = Ok false ->
    In x st'.
Proof.
  induction 1 as [top Hnf | top files c d Hnf Hl Hc Hd _ IH];
    intros st l st' x H Hch Hdir Hnfx;
    destruct (searchArray_Ok_inv _ _ _ _ H)
      as [(Hf & _)|(_ & files' & items & Hl' & Hm & Hfil)];
    try congruence.
  - destruct Hch as (fl & Hfl & Hin). assert (fl = files') by congruence. subst fl.
    eapply mapM_store_complete with (a := x); [exact Hm| |exact Hin|].
    + intros; eapply visitSync_mono; eauto.
    + intros s1 r s2 Hv.
      destruct (visitSync_Ok_inv _ _ _ _ Hv)
        as [(Hd' & _)|(_ & skip & sub & Hskip & _ & Hs)]; [congruence|].
      assert (skip = false) by congruence. subst skip.
      eapply searchArray_mono; [exact Hs|]. apply in_or_app. simpl. auto.
  - assert (files' = files) by congruence. subst files'.
    eapply mapM_store_complete with (a := c); [exact Hm| |exact Hc|].
    + intros; eapply visitSync_mono; eauto.
    + intros s1 r s2 Hv.
      destruct (visitSync_Ok_inv _ _ _ _ Hv)
        as [(Hd' & _)|(_ & skip & sub & Hskip & _ & Hs)]; [congruence|].
      eapply IH; eauto.
Qed.

(** The three ways the walk of one directory throws. *)
Lemma searchArray_listing_fails fh root d e :
  _shouldFilterDirectory fh root d = Ok false ->
  getFilesSync d = Err e ->
  forall st, searchArray fh root d st = Err e.
Proof.
  intros Hnf Hl st. rewrite searchArray_eq. unfold bind, lift.
  now rewrite Hnf, Hl.
Qed.

Lemma searchArray_prune_fails fh root d c e :
  _shouldFilterDirectory fh root d = Ok false ->
  child d c -> isDirOrFalse c = true ->
  _shouldFilterDirectory fh root c = Err e ->
  forall st, exists e', searchArray fh root d st = Err e'.
Proof.
  intros Hnf (files & Hl & Hin) Hd Hc st. rewrite searchArray_eq.
  unfold bind at 1. unfold lift at 1. rewrite Hnf.
  unfold bind at 1. unfold lift at 1. rewrite Hl.
  unfold bind at 1.
  destruct (mapM_Err (visitSync fh root) files c Hin) with (st := st) as [e' ->];
    eauto.
  intros s. unfold visitSync. rewrite Hd. unfold bind, lift. rewrite Hc. eauto.
Qed.

Lemma searchArray_predicate_fails fh root d f e :
  _shouldFilterDirectory fh root d = Ok false ->
  child d f -> isDirOrFalse f = false ->
  _isMatch fh f = Err e ->
  forall st, exists e', searchArray fh root d st = Err e'.
Proof.
  intros Hnf (files & Hl & Hin) Hd Hf st. rewrite searchArray_eq.
  unfold bind at 1. unfold lift at 1. rewrite Hnf.
  unfold bind at 1. unfold lift at 1. rewrite Hl.
  unfold bind at 1.
  destruct (mapM (visitSync fh root) files st) as [[items s1]|e'] eqn:Hm; eauto.
  destruct (mapM_In_arg _ _ _ Hm _ Hin) as (item & t1 & t2 & Hv & Hitem).
  destruct (visitSync_Ok_inv _ _ _ _ Hv) as [(_ & -> & _)|(Hd' & _)];
    [|congruence].
  rewrite fold_flatten. simpl. unfold lift.
  destruct (filterR_Err (_isMatch fh) (flat_map unItem items) f) with (e := e)
    as [e' ->]; eauto.
  apply in_flat_map. exists (One f). simpl. auto.
Qed.

(** ** The asynchronous walk against the synchronous one *)

Lemma searchPromise_run fh root path st :
  searchPromise fh root path st =
  match _shouldFilterDirectory fh root path with
  | Err e => Err e
  | Ok true => Ok (Arr [], st)
  | Ok false => Ok (Promise (listingPromise fh root path), st)
  end.
Proof.
  rewrite searchPromise_eq. unfold bind, lift, ret.
  destruct (_shouldFilterDirectory fh root path) as [[|]|e]; reflexivity.
Qed.

Lemma visitAsync_run fh root c st :
  visitAsync fh root c st =
  match pushesOf fh root c with
  | Err e => Err e
  | Ok p => Ok (asyncItemOf fh root c, st ++ p)
  end.
Proof.
  unfold visitAsync, pushesOf, asyncItemOf. destruct (isDirOrFalse c).
  - unfold bind, lift, ret, push.
    destruct (_shouldFilterDirectory fh root c) as [[|]|e] eqn:Hs; simpl;
      try reflexivity; rewrite searchPromise_run, Hs; [|reflexivity].
    now rewrite app_nil_r.
  - unfold ret. simpl. now rewrite app_nil_r.
Qed.

Lemma passOne_run fh root files : forall st,
  mapM (visitAsync fh root) files st =
  match pushesAll fh root files with
  | Err e => Err e
  | Ok p => Ok (map (asyncItemOf fh root) files, st ++ p)
  end.
Proof.
  induction files as [|c r IH]; intros st; simpl.
  - unfold ret. now rewrite app_nil_r.
  - unfold bind. rewrite visitAsync_run.
    destruct (pushesOf fh root c) as [p|e]; simpl; [|reflexivity].
    rewrite IH. destruct (pushesAll fh root r) as [q|e]; simpl; [|reflexivity].
    unfold ret. now rewrite app_assoc.
Qed.

Lemma mapM_map A B C (f : B -> M C) (g : A -> B) (l : list A) : forall st,
  mapM f (map g l) st = mapM (fun a => f (g a)) l st.
Proof.
  induction l as [|a r IH]; intros st; simpl; [reflexivity|].
  unfold bind. destruct (f (g a) st) as [[b s1]|e]; [|reflexivity].
  now rewrite IH.
Qed.

Lemma agree_refl A (x : result (A * Store)) : agree x x.
Proof. destruct x as [[a p]|e]; simpl; auto. Qed.

Lemma Permutation_interleave (a b c d a' c' : list File) :
  Permutation a' (a ++ b) -> Permutation c' (c ++ d) ->
  Permutation (a' ++ c') ((a ++ c) ++ (b ++ d)).
Proof.
  intros H1 H2. rewrite H1, H2.
  rewrite <- !app_assoc. apply Permutation_app_head.
  rewrite !app_assoc. apply Permutation_app_tail.
  apply Permutation_app_comm.
Qed.

Lemma Appender_await_item fh root c :
  Settles fh root c -> Appender (await (asyncItemOf fh root c)).
Proof.
  intros [Ha _]. unfold asyncItemOf.
  destruct (isDirOrFalse c); [|apply Appender_ret].
  destruct (_shouldFilterDirectory fh root c) as [[|]|e]; simpl;
    try apply Appender_ret.
  apply Appender_bind; [exact Ha|]. intros l. apply Appender_ret.
Qed.

(** One entry: the synchronous callback against the asynchronous one
    followed by the wait for what it returned. *)
Lemma visit_agree fh root c :
  Settles fh root c ->
  agree (visitSync fh root c [])
        (match pushesOf fh root c with
         | Err e => Err e
         | Ok p => shift p (await (asyncItemOf fh root c) [])
         end).
Proof.
  intros [Ha Hagree]. unfold visitSync, pushesOf, asyncItemOf.
  destruct (isDirOrFalse c); [|simpl; auto].
  unfold bind at 1. unfold lift at 1.
  destruct (_shouldFilterDirectory fh root c) as [[|]|e] eqn:Hs; simpl; auto.
  - unfold bind, ret. rewrite searchArray_eq. unfold bind, lift, ret.
    rewrite Hs. simpl. auto.
  - specialize (Hagree eq_refl). unfold bind, ret, push.
    rewrite (Appender_searchArray fh root c ([] ++ [c])).
    destruct (searchArray fh root c []) as [[l p]|e1];
      destruct (listingPromise fh root c []) as [[l' p']|e2];
      simpl in *; try tauto.
    destruct Hagree as [-> Hp]. split; [reflexivity|].
    now apply Permutation_cons.
Qed.

(** One listing: the synchronous loop against the two asynchronous
    passes. *)
Lemma passes_agree fh root files :
  Forall (Settles fh root) files ->
  agree (mapM (visitSync fh root) files [])
        (match pushesAll fh root files with
         | Err e => Err e
         | Ok p =>
             shift p (mapM (fun c => await (asyncItemOf fh root c)) files [])
         end).
Proof.
  induction 1 as [|c r Hc Hr IH]; simpl; [auto|].
  assert (Hsync : Appender (mapM (visitSync fh root) r)).
  { apply Appender_mapM, Forall_forall. intros x _.
    apply Appender_visitSync, Appender_searchArray. }
  assert (Hasync : Appender (mapM (fun c => await (asyncItemOf fh root c)) r)).
  { apply Appender_mapM. eapply Forall_impl; [|exact Hr].
    intros x. apply Appender_await_item. }
  pose proof (visit_agree Hc) as Hv. unfold bind, ret.
  destruct (visitSync fh root c []) as [[i pc]|e1].
  - rewrite (Hsync pc).
    destruct (pushesOf fh root c) as [p1|e2]; simpl in *; [|tauto].
    destruct (await (asyncItemOf fh root c) []) as [[j wc]|e3];
      simpl in Hv; [|tauto].
    destruct Hv as [-> Hpc]. rewrite (Hasync wc).
    destruct (mapM (visitSync fh root) r []) as [[xs pr]|e4];
      destruct (pushesAll fh root r) as [pall|e5]; simpl in *; try tauto;
      destruct (mapM (fun c0 => await (asyncItemOf fh root c0)) r [])
        as [[js wr]|e6]; simpl in *; try tauto.
    destruct IH as [-> Hpr]. split; [reflexivity|].
    now apply Permutation_interleave.
  - destruct (pushesOf fh root c) as [p1|e2]; simpl in *; [|tauto].
    destruct (await (asyncItemOf fh root c) []) as [[j wc]|e3];
      simpl in Hv; [tauto|].
    destruct (pushesAll fh root r) as [pall|e5]; simpl; auto.
Qed.

Lemma listingPromise_run fh root top st :
  listingPromise fh root top st =
  match getFilesSync top with
  | Err e => Err e
  | Ok files =>
      match pushesAll fh root files with
      | Err e => Err e
      | Ok p =>
          match mapM (fun c => await (asyncItemOf fh root c)) files (st ++ p) with
          | Err e => Err e
          | Ok (items, s2) =>
              match filterR (_isMatch fh) (flat_map unItem items) with
              | Err e => Err e
              | Ok l => Ok (l, s2)
              end
          end
      end
  end.
Proof.
  unfold listingPromise. unfold bind at 1. unfold lift at 1.
  destruct (getFilesSync top) as [files|e]; [|reflexivity].
  unfold bind at 1. rewrite passOne_run.
  destruct (pushesAll fh root files) as [p|e]; [|reflexivity].
  unfold bind. rewrite mapM_map.
  destruct (mapM (fun c => await (asyncItemOf fh root c)) files (st ++ p))
    as [[items s2]|e]; [|reflexivity].
  rewrite fold_flatten. simpl. unfold lift.
  destruct (filterR (_isMatch fh) (flat_map unItem items)); reflexivity.
Qed.

Lemma searchArray_run fh root top st :
  _shouldFilterDirectory fh root top = Ok false ->
  searchArray fh root top st =
  match getFilesSync top with
  | Err e => Err e
  | Ok files =>
      match mapM (visitSync fh root) files st with
      | Err e => Err e
      | Ok (items, s2) =>
          match filterR (_isMatch fh) (flat_map unItem items) with
          | Err e => Err e
          | Ok l => Ok (l, s2)
          end
      end
  end.
Proof.
  intros Hnf. rewrite searchArray_eq. unfold bind at 1. unfold lift at 1.
  rewrite Hnf. unfold bind at 1. unfold lift at 1.
  destruct (getFilesSync top) as [files|e]; [|reflexivity].
  unfold bind.
  destruct (mapM (visitSync fh root) files st) as [[items s2]|e]; [|reflexivity].
  rewrite fold_flatten. simpl. unfold lift.
  destruct (filterR (_isMatch fh) (flat_map unItem items)); reflexivity.
Qed.

Lemma Settles_all fh root c : Settles fh root c.
Proof.
  induction c as [n d h i s e | n d h i s files IH] using File_ind.
  - split.
    + intros st. now rewrite !listingPromise_run.
    + intros Hnf. rewrite searchArray_run by exact Hnf.
      rewrite listingPromise_run. simpl. auto.
  - assert (Hasync :
      Appender (mapM (fun c => await (asyncItemOf fh root c)) files)).
    { apply Appender_mapM. eapply Forall_impl; [|exact IH].
      intros x. apply Appender_await_item. }
    split.
    + intros st. rewrite !listingPromise_run. simpl.
      destruct (pushesAll fh root files) as [p|e]; [|reflexivity].
      rewrite (Hasync (st ++ p)), (Hasync p).
      destruct (mapM (fun c => await (asyncItemOf fh root c)) files [])
        as [[items w]|e]; simpl; [|reflexivity].
      destruct (filterR (_isMatch fh) (flat_map unItem items)); [|reflexivity].
      now rewrite app_assoc.
    + intros Hnf. rewrite searchArray_run by exact Hnf.
      rewrite listingPromise_run. simpl.
      pose proof (passes_agree IH) as Hp.
      destruct (mapM (visitSync fh root) files []) as [[items pc]|e1];
        destruct (pushesAll fh root files) as [p|e2]; simpl in *; try tauto.
      * rewrite (Hasync p).
        destruct (mapM (fun c => await (asyncItemOf fh root c)) files [])
          as [[items' w]|e3]; simpl in *; [|tauto].
        destruct Hp as [-> Hperm].
        destruct (filterR (_isMatch fh) (flat_map unItem items')); simpl; auto.
      * rewrite (Hasync p).
        destruct (mapM (fun c => await (asyncItemOf fh root c)) files [])
          as [[items' w]|e3]; simpl in *; [tauto|auto].
Qed.

(** What awaiting [_search] gives, flag by flag. *)
Lemma settled_sync fh root path st :
  _sync fh = true -> settled fh root path st = searchArray fh root path st.
Proof.
  intros Hs. unfold settled, _search. rewrite Hs. unfold bind, ret.
  destruct (searchArray fh root path st) as [[l s]|e]; reflexivity.
Qed.

Lemma settled_async fh root path st :
  _sync fh = false ->
  settled fh root path st =
  match _shouldFilterDirectory fh root path with
  | Err e => Err e
  | Ok true => Ok ([], st)
  | Ok false => listingPromise fh root path st
  end.
Proof.
  intros Hs. unfold settled, _search. rewrite Hs. unfold bind.
  rewrite searchPromise_run.
  destruct (_shouldFilterDirectory fh root path) as [[|]|e]; reflexivity.
Qed.

(** The two walks agree on every directory: both throw, or they return
    the same entries and have pushed the same directories. *)
Lemma settled_agree fh root path st :
  agree (searchArray fh root path st) (settled fh root path st).
Proof.
  destruct (_sync fh) eqn:Hs.
  - rewrite settled_sync by exact Hs. apply agree_refl.
  - rewrite settled_async by exact Hs.
    destruct (Settles_all fh root path) as [Ha Hagree].
    destruct (_shouldFilterDirectory fh root path) as [[|]|e] eqn:Hf.
    + rewrite searchArray_eq. unfold bind, lift, ret. rewrite Hf. simpl. auto.
    + specialize (Hagree eq_refl).
      rewrite (Appender_searchArray fh root path st), (Ha st).
      destruct (searchArray fh root path []) as [[l p]|e1];
        destruct (listingPromise fh root path []) as [[l' p']|e2];
        simpl in *; try tauto.
      destruct Hagree as [-> Hp]. split; [reflexivity|].
      now apply Permutation_app_head.
    + rewrite searchArray_eq. unfold bind, lift. rewrite Hf. simpl. auto.
Qed.

(** ** The object's flag does not steer the synchronous walk *)

Lemma mapM_ext_in A B (f g : A -> M B) (l : list A) :
  (forall a, In a l -> forall st, f a st = g a st) ->
  forall st, mapM f l st = mapM g l st.
Proof.
  induction l as [|a r IH]; intros H st; simpl; [reflexivity|].
  unfold bind. rewrite (H a (or_introl eq_refl) st).
  destruct (g a st) as [[b s1]|e]; [|reflexivity].
  rewrite IH; [reflexivity|]. intros; apply H; simpl; auto.
Qed.

Lemma searchArray_step fh root top st :
  searchArray fh root top st =
  match _shouldFilterDirectory fh root top with
  | Err e => Err e
  | Ok true => Ok ([], st)
  | Ok false =>
      match getFilesSync top with
      | Err e => Err e
      | Ok files =>
          match mapM (visitSync fh root) files st with
          | Err e => Err e
          | Ok (items, s2) =>
              match filterR (_isMatch fh) (flat_map unItem items) with
              | Err e => Err e
              | Ok l => Ok (l, s2)
              end
          end
      end
  end.
Proof.
  destruct (_shouldFilterDirectory fh root top) as [[|]|e] eqn:Hf.
  - rewrite searchArray_eq. unfold bind, lift, ret. now rewrite Hf.
  - now apply searchArray_run.
  - rewrite searchArray_eq. unfold bind, lift. now rewrite Hf.
Qed.

Lemma visitSync_step fh root c st :
  visitSync fh root c st =
  if isDirOrFalse c then
    match _shouldFilterDirectory fh root c with
    | Err e => Err e
    | Ok skip =>
        match searchArray fh root c (if (skip : bool) then st else st ++ [c]) with
        | Err e => Err e
        | Ok (sub, s') => Ok (Many sub, s')
        end
    end
  else Ok (One c, st).
Proof.
  unfold visitSync. destruct (isDirOrFalse c); [|reflexivity].
  unfold bind, lift, ret, push.
  destruct (_shouldFilterDirectory fh root c) as [[|]|e]; reflexivity.
Qed.

Lemma searchArray_set_sync b fh root path : forall st,
  searchArray (set_sync b fh) root path st = searchArray fh root path st.
Proof.
  induction path as [n d h i s e | n d h i s files IH] using File_ind;
    intros st; rewrite !searchArray_step;
    change (_shouldFilterDirectory (set_sync b fh)) with (_shouldFilterDirectory fh);
    change (_isMatch (set_sync b fh)) with (_isMatch fh);
    destruct (_shouldFilterDirectory fh root _) as [[|]|e1]; try reflexivity.
  cbv beta iota delta [getFilesSync].
  rewrite mapM_ext_in with (g := visitSync fh root); [reflexivity|].
  intros c Hc s2. rewrite Forall_forall in IH. rewrite !visitSync_step.
  change (_shouldFilterDirectory (set_sync b fh)) with (_shouldFilterDirectory fh).
  destruct (isDirOrFalse c); [|reflexivity].
  destruct (_shouldFilterDirectory fh root c) as [skip|e2]; [|reflexivity].
  now rewrite IH.
Qed.

(** ** One root, in closed form *)

Lemma _searchSync_run fs fh dir :
  _searchSync fs fh dir = (set_sync true fh, rootSync fs fh dir).
Proof.
  unfold _searchSync, rootSync, rootOutcome. rewrite searchArray_set_sync.
  reflexivity.
Qed.

Lemma _searchAsync_fresh fs fh dir :
  _sync fh = false ->
  _searchAsync fs fh dir =
  match _shouldFilterDirectory fh (fs dir) (fs dir) with
  | Err e => Err e
  | Ok true => Err (TypeError "pending.then is not a function")
  | Ok false => rootOutcome fh (listingPromise fh (fs dir) (fs dir) [])
  end.
Proof.
  intros Hs. unfold _searchAsync, _search. rewrite Hs, searchPromise_run.
  destruct (_shouldFilterDirectory fh (fs dir) (fs dir)) as [[|]|e];
    reflexivity.
Qed.

Lemma _searchAsync_stale fs fh dir :
  _sync fh = true ->
  _searchAsync fs fh dir =
  match searchArray fh (fs dir) (fs dir) [] with
  | Err e => Err e
  | Ok _ => Err (TypeError "pending.then is not a function")
  end.
Proof.
  intros Hs. unfold _searchAsync, _search. rewrite Hs. unfold bind, ret.
  destruct (searchArray fh (fs dir) (fs dir) []) as [[l s]|e]; reflexivity.
Qed.

Lemma filterR_perm p l l' :
  Permutation l l' -> sameMatches (filterR p l) (filterR p l').
Proof.
  induction 1 as [|x l l' _ IH|x y l|l l' l'' _ IH1 _ IH2]; simpl.
  - constructor.
  - destruct (p x) as [[|]|e]; simpl; auto;
      destruct (filterR p l), (filterR p l'); simpl in *; auto.
  - destruct (p y) as [[|]|e1], (p x) as [[|]|e2]; simpl; auto;
      destruct (filterR p l); simpl; auto using perm_swap.
  - destruct (filterR p l), (filterR p l'), (filterR p l''); simpl in *;
      try tauto. eapply Permutation_trans; eauto.
Qed.

Lemma rootOutcome_agree fh x y :
  agree x y -> sameMatches (rootOutcome fh x) (rootOutcome fh y).
Proof.
  destruct x as [[a p]|e1], y as [[b q]|e2]; simpl; try tauto.
  intros [-> Hp]. destruct (_directoriesOnly fh).
  - now apply filterR_perm.
  - simpl. reflexivity.
Qed.

(** A root that is not pruned gives the same matches either way. *)
Lemma root_agree fs fh dir :
  _sync fh = false ->
  _shouldFilterDirectory fh (fs dir) (fs dir) = Ok false ->
  sameMatches (rootSync fs fh dir) (_searchAsync fs fh dir).
Proof.
  intros Hs Hnf. rewrite _searchAsync_fresh, Hnf by exact Hs.
  apply rootOutcome_agree.
  pose proof (settled_agree fh (fs dir) (fs dir) []) as H.
  now rewrite settled_async, Hnf in H by exact Hs.
Qed.

(** ** All roots, in closed form *)

Lemma rootSync_set_sync b fs fh dir :
  rootSync fs (set_sync b fh) dir = rootSync fs fh dir.
Proof. unfold rootSync. now rewrite searchArray_set_sync. Qed.

Lemma mapSearchSync_run fs dirs : forall this,
  mapSearchSync fs this dirs =
  (match dirs with [] => this | _ :: _ => set_sync true this end,
   mapR (rootSync fs this) dirs).
Proof.
  induction dirs as [|dir rest IH]; intros this; [reflexivity|].
  cbn [mapSearchSync mapR]. rewrite _searchSync_run.
  destruct (rootSync fs this dir) as [files|e]; [|reflexivity].
  rewrite IH. cbn [rbind]. f_equal; [now destruct rest|].
  assert (H : mapR (rootSync fs (set_sync true this)) rest
              = mapR (rootSync fs this) rest).
  { clear. induction rest as [|d r IH]; simpl; [reflexivity|].
    now rewrite rootSync_set_sync, IH. }
  now rewrite H.
Qed.

Lemma mapR_ext A B (f g : A -> result B) l :
  (forall a, f a = g a) -> mapR f l = mapR g l.
Proof.
  intros H. induction l as [|a r IH]; simpl; [reflexivity|].
  now rewrite H, IH.
Qed.

Lemma findSync_run fs fh :
  snd (findSync fs fh) =
  pipeline (_initFilters fh)
    (TypeError "Reduce of empty array with no initial value")
    (rootSync fs (_initFilters fh)) (getSearchPaths fh).
Proof.
  unfold findSync, pipeline. rewrite mapSearchSync_run.
  change (getSearchPaths (_initFilters fh)) with (getSearchPaths fh).
  simpl snd. destruct (getSearchPaths fh); reflexivity.
Qed.

Lemma find_run fs fh :
  snd (find fs fh) =
  pipeline (_initFilters fh)
    (TypeError "expecting an array or an iterable object but got undefined")
    (_searchAsync fs (_initFilters fh)) (getSearchPaths fh).
Proof. reflexivity. Qed.

Section MapR_facts.
Variables A B : Type.
Variable f : A -> result B.

Lemma mapR_In_result l : forall bs,
  mapR f l = Ok bs -> forall b, In b bs -> exists a, In a l /\ f a = Ok b.
Proof.
  induction l as [|a r IH]; simpl; intros bs H b Hb.
  - injection H as <-. destruct Hb.
  - destruct (f a) as [b0|e] eqn:Ha; simpl in H; [|discriminate].
    destruct (mapR f r) as [bs0|e]; simpl in H; [|discriminate].
    injection H as <-. destruct Hb as [<-|Hb]; eauto.
    destruct (IH _ eq_refl b Hb) as (a' & Ha' & Hf). eauto.
Qed.

Lemma mapR_In_arg l : forall bs,
  mapR f l = Ok bs -> forall a, In a l -> exists b, f a = Ok b /\ In b bs.
Proof.
  induction l as [|x r IH]; simpl; intros bs H a Ha; [destruct Ha|].
  destruct (f x) as [b0|e] eqn:Hx; simpl in H; [|discriminate].
  destruct (mapR f r) as [bs0|e]; simpl in H; [|discriminate].
  injection H as <-. destruct Ha as [<-|Ha]; [exists b0; simpl; auto|].
  destruct (IH _ eq_refl a Ha) as (b & Hb & Hin). exists b. simpl. auto.
Qed.

Lemma mapR_Err l a e :
  In a l -> f a = Err e -> exists e', mapR f l = Err e'.
Proof.
  induction l as [|x r IH]; simpl; intros Ha Hf; [destruct Ha|].
  destruct Ha as [->|Ha].
  - rewrite Hf. simpl. eauto.
  - destruct (f x); simpl; eauto.
    destruct (IH Ha Hf) as [e' ->]. simpl. eauto.
Qed.

Lemma mapR_Ok l :
  (forall a, In a l -> exists b, f a = Ok b) -> exists bs, mapR f l = Ok bs.
Proof.
  induction l as [|x r IH]; simpl; intros H; eauto.
  destruct (H x (or_introl eq_refl)) as [b ->]. simpl.
  destruct IH as [bs ->]; [intros; apply H; auto|]. simpl. eauto.
Qed.
End MapR_facts.

Lemma reduceFlatten_Ok e arrays files :
  reduceFlatten e arrays = Ok files -> files = List.concat arrays.
Proof.
  destruct arrays as [|first rest]; simpl; [discriminate|].
  intros H. injection H as <-.
  revert first. induction rest as [|b r IH]; intros first; simpl.
  - now rewrite app_nil_r.
  - rewrite IH. unfold flatten. now rewrite app_assoc.
Qed.

Lemma reduceFlatten_run e arrays :
  reduceFlatten e arrays =
  match arrays with [] => Err e | _ :: _ => Ok (List.concat arrays) end.
Proof.
  destruct arrays as [|first rest]; [reflexivity|].
  destruct (reduceFlatten e (first :: rest)) as [files|e'] eqn:H.
  - now rewrite (reduceFlatten_Ok _ _ H).
  - discriminate.
Qed.

Lemma pipeline_sound fh e search roots results :
  pipeline fh e search roots = Ok results ->
  forall m, In m results ->
    exists dir l f, In dir roots /\ search dir = Ok l /\ In f l /\
                    formatResult fh f = Ok m.
Proof.
  unfold pipeline. intros H m Hm.
  destruct (mapR search roots) as [arrays|e1] eqn:Ha; simpl in H; [|discriminate].
  destruct (reduceFlatten e arrays) as [files|e2] eqn:Hr; simpl in H;
    [|discriminate].
  destruct (mapR_In_result _ _ H _ Hm) as (f & Hf & Hfmt).
  rewrite (reduceFlatten_Ok _ _ Hr) in Hf. apply in_concat in Hf.
  destruct Hf as (l & Hl & Hfl).
  destruct (mapR_In_result _ _ Ha _ Hl) as (dir & Hdir & Hs).
  exists dir, l, f. auto.
Qed.

Lemma pipeline_complete fh e search roots results :
  pipeline fh e search roots = Ok results ->
  forall dir l f, In dir roots -> search dir = Ok l -> In f l ->
    exists m, formatResult fh f = Ok m /\ In m results.
Proof.
  unfold pipeline. intros H dir l f Hdir Hs Hf.
  destruct (mapR search roots) as [arrays|e1] eqn:Ha; simpl in H; [|discriminate].
  destruct (reduceFlatten e arrays) as [files|e2] eqn:Hr; simpl in H;
    [|discriminate].
  destruct (mapR_In_arg _ _ Ha _ Hdir) as (l' & Hl' & Hin).
  assert (l' = l) by congruence. subst l'.
  apply (mapR_In_arg _ _ H). rewrite (reduceFlatten_Ok _ _ Hr).
  apply in_concat. eauto.
Qed.

Lemma pipeline_fails fh e search roots dir e0 :
  In dir roots -> search dir = Err e0 ->
  exists e', pipeline fh e search roots = Err e'.
Proof.
  intros Hdir Hs. unfold pipeline.
  destruct (mapR_Err search roots dir Hdir Hs) as [e' ->]. simpl. eauto.
Qed.

(** ** What one root contributes *)

Lemma Listed_top_not_pruned fh root top d :
  Listed fh root top d -> _shouldFilterDirectory fh root top = Ok false.
Proof. now destruct 1. Qed.

Lemma Listed_not_pruned fh root top d :
  Listed fh root top d -> _shouldFilterDirectory fh root d = Ok false.
Proof. induction 1; auto. Qed.

Lemma Listed_same_prune fh fh' root top d :
  (forall r x, _shouldFilterDirectory fh r x = _shouldFilterDirectory fh' r x) ->
  Listed fh root top d -> Listed fh' root top d.
Proof.
  intros Heq. induction 1 as [top Hnf | top files c d Hnf Hl Hc Hd _ IH].
  - apply Listed_here. now rewrite <- Heq.
  - eapply Listed_below; eauto. now rewrite <- Heq.
Qed.

Lemma Listed_initFilters fh root top d :
  Listed fh root top d <-> Listed (_initFilters fh) root top d.
Proof. split; apply Listed_same_prune; reflexivity. Qed.

Lemma rootSync_sound fs fh dir l :
  rootSync fs fh dir = Ok l -> forall f, In f l -> Found fh (fs dir) f.
Proof.
  unfold rootSync, rootOutcome, Found. intros H f Hf.
  destruct (searchArray fh (fs dir) (fs dir) []) as [[files tr]|e] eqn:Hs;
    [|discriminate].
  destruct (_directoriesOnly fh).
  - apply (filterR_In _ _ H) in Hf. destruct Hf as [Hf Hm].
    destruct (searchArray_tracked_sound _ _ _ _ Hs f Hf)
      as [[]|(d & HL & Hch & Hd & Hnf)].
    exists d. auto.
  - injection H as <-.
    destruct (searchArray_sound _ _ _ _ Hs f Hf) as (d & HL & Hch & Hd & Hm).
    exists d. auto.
Qed.

Lemma rootSync_complete fs fh dir l :
  rootSync fs fh dir = Ok l -> forall f, Found fh (fs dir) f -> In f l.
Proof.
  unfold rootSync, rootOutcome, Found. intros H f (d & HL & Hch & Hm & Hmode).
  destruct (searchArray fh (fs dir) (fs dir) []) as [[files tr]|e] eqn:Hs;
    [|discriminate].
  destruct (_directoriesOnly fh).
  - destruct Hmode as [Hd Hnf]. apply (filterR_In _ _ H). split; [|exact Hm].
    eapply searchArray_tracked_complete; eauto.
  - injection H as <-. eapply searchArray_complete; eauto.
Qed.

(** The asynchronous search of a root succeeds only on a fresh object and
    a root that is not pruned, and then with the matches of the
    synchronous one. *)
Lemma _searchAsync_Ok fs fh dir l :
  _searchAsync fs fh dir = Ok l ->
  _sync fh = false /\
  _shouldFilterDirectory fh (fs dir) (fs dir) = Ok false /\
  exists l', rootSync fs fh dir = Ok l' /\ Permutation l' l.
Proof.
  intros H. destruct (_sync fh) eqn:Hs.
  - rewrite _searchAsync_stale in H by exact Hs.
    destruct (searchArray fh (fs dir) (fs dir) []); discriminate.
  - split; [reflexivity|].
    pose proof H as H'. rewrite _searchAsync_fresh in H' by exact Hs.
    destruct (_shouldFilterDirectory fh (fs dir) (fs dir)) as [[|]|e] eqn:Hf;
      try discriminate.
    split; [reflexivity|].
    pose proof (root_agree fs fh dir Hs Hf) as Ha. rewrite H in Ha.
    destruct (rootSync fs fh dir) as [l'|e]; simpl in Ha; [eauto|tauto].
Qed.

Lemma _searchAsync_fails fs fh dir e :
  searchArray fh (fs dir) (fs dir) [] = Err e ->
  exists e', _searchAsync fs fh dir = Err e'.
Proof.
  intros H. destruct (_searchAsync fs fh dir) as [l|e'] eqn:Ha; eauto.
  destruct (_searchAsync_Ok _ _ _ Ha) as (_ & _ & l' & Hl' & _).
  unfold rootSync in Hl'. rewrite H in Hl'. discriminate.
Qed.

Lemma _searchAsync_sound fs fh dir l :
  _searchAsync fs fh dir = Ok l -> forall f, In f l -> Found fh (fs dir) f.
Proof.
  intros H f Hf. destruct (_searchAsync_Ok _ _ _ H) as (_ & _ & l' & Hl' & Hp).
  eapply rootSync_sound; [exact Hl'|].
  apply Permutation_in with (l := l); [now apply Permutation_sym|exact Hf].
Qed.

Lemma _searchAsync_complete fs fh dir l :
  _searchAsync fs fh dir = Ok l -> forall f, Found fh (fs dir) f -> In f l.
Proof.
  intros H f Hf. destruct (_searchAsync_Ok _ _ _ H) as (_ & _ & l' & Hl' & Hp).
  apply Permutation_in with (l := l'); [exact Hp|].
  eapply rootSync_complete; eauto.
Qed.

(** ** What [find] and [findSync] return *)

Lemma findSync_sound fs fh results :
  snd (findSync fs fh) = Ok results ->
  forall m, In m results ->
    exists dir f, In dir (getSearchPaths fh) /\
                  Found (_initFilters fh) (fs dir) f /\
                  formatResult fh f = Ok m.
Proof.
  rewrite findSync_run. intros H m Hm.
  destruct (pipeline_sound _ _ _ _ H m Hm) as (dir & l & f & Hd & Hs & Hf & Hfmt).
  exists dir, f. split; [exact Hd|]. split; [|exact Hfmt].
  eapply rootSync_sound; eauto.
Qed.

Lemma find_sound fs fh results :
  snd (find fs fh) = Ok results ->
  forall m, In m results ->
    exists dir f, In dir (getSearchPaths fh) /\
                  Found (_initFilters fh) (fs dir) f /\
                  formatResult fh f = Ok m.
Proof.
  rewrite find_run. intros H m Hm.
  destruct (pipeline_sound _ _ _ _ H m Hm) as (dir & l & f & Hd & Hs & Hf & Hfmt).
  exists dir, f. split; [exact Hd|]. split; [|exact Hfmt].
  eapply _searchAsync_sound; eauto.
Qed.

Lemma findSync_complete fs fh results dir f :
  snd (findSync fs fh) = Ok results ->
  In dir (getSearchPaths fh) -> Found (_initFilters fh) (fs dir) f ->
  exists m, formatResult fh f = Ok m /\ In m results.
Proof.
  rewrite findSync_run. intros H Hd Hf. pose proof H as H'. unfold pipeline in H'.
  destruct (mapR (rootSync fs (_initFilters fh)) (getSearchPaths fh))
    as [arrays|e] eqn:Ha; [|discriminate].
  destruct (mapR_In_arg _ _ Ha _ Hd) as (l & Hl & _).
  eapply pipeline_complete with (dir := dir) (l := l);
    [exact H|exact Hd|exact Hl|].
  eapply rootSync_complete; eauto.
Qed.

Lemma find_complete fs fh results dir f :
  snd (find fs fh) = Ok results ->
  In dir (getSearchPaths fh) -> Found (_initFilters fh) (fs dir) f ->
  exists m, formatResult fh f = Ok m /\ In m results.
Proof.
  rewrite find_run. intros H Hd Hf. pose proof H as H'. unfold pipeline in H'.
  destruct (mapR (_searchAsync fs (_initFilters fh)) (getSearchPaths fh))
    as [arrays|e] eqn:Ha; [|discriminate].
  destruct (mapR_In_arg _ _ Ha _ Hd) as (l & Hl & _).
  eapply pipeline_complete with (dir := dir) (l := l);
    [exact H|exact Hd|exact Hl|].
  eapply _searchAsync_complete; eauto.
Qed.

Lemma findSync_fails fs fh dir e :
  In dir (getSearchPaths fh) ->
  searchArray (_initFilters fh) (fs dir) (fs dir) [] = Err e ->
  exists e', snd (findSync fs fh) = Err e'.
Proof.
  intros Hd Hs. rewrite findSync_run.
  eapply pipeline_fails with (dir := dir); [exact Hd|].
  unfold rootSync. rewrite Hs. reflexivity.
Qed.

Lemma find_fails fs fh dir e :
  In dir (getSearchPaths fh) ->
  searchArray (_initFilters fh) (fs dir) (fs dir) [] = Err e ->
  exists e', snd (find fs fh) = Err e'.
Proof.
  intros Hd Hs. rewrite find_run.
  destruct (_searchAsync_fails fs _ dir Hs) as [e' He'].
  eapply pipeline_fails with (dir := dir); eauto.
Qed.

(* ===================================================================== *)
(** * The claims *)

(** ** Failures of a listing *)

Lemma Listed_fails fh root d e :
  Listed fh root root d -> getFilesSync d = Err e ->
  exists e', searchArray fh root root [] = Err e'.
Proof.
  intros HL Hd. apply searchArray_fails_below with (d := d); [exact HL|].
  intros st. exists e. apply searchArray_listing_fails; [|exact Hd].
  eapply Listed_not_pruned; eauto.
Qed.

(** C2. If the listing of a directory that the traversal asks for fails,
    the whole search fails: [findSync] throws and the promise of [find] is
    rejected, so that neither returns a list of matches, whatever else
    would have matched under the roots. *)
Theorem C2_listing_failure_fails_the_search fs fh dir d e :
  In dir (getSearchPaths fh) ->
  Listed fh (fs dir) (fs dir) d ->
  getFilesSync d = Err e ->
  (exists e', snd (findSync fs fh) = Err e') /\
  (exists e', snd (find fs fh) = Err e').
Proof.
  intros Hdir HL Hd. apply Listed_initFilters in HL.
  destruct (Listed_fails HL Hd) as [e0 He0]. split.
  - eapply findSync_fails; eauto.
  - eapply find_fails; eauto.
Qed.

Lemma C2_witness :
  (exists e', snd (findSync deniedFs txt_under_r) = Err e') /\
  (exists e', snd (find deniedFs txt_under_r) = Err e').
Proof.
  apply (@C2_listing_failure_fails_the_search
           deniedFs txt_under_r "/r" sub_denied (FsError "EACCES")).
  - simpl. auto.
  - apply Listed_below
      with (files := [regular "/r/a.txt" 1; sub_denied]) (c := sub_denied);
      try reflexivity.
    + simpl. auto.
    + apply Listed_here. reflexivity.
  - reflexivity.
Defined.

(** The scenario of the unreadable /r/sub: a.txt would match, nothing is
    returned. *)
Example scenario_denied :
  snd (findSync deniedFs txt_under_r) = Err (FsError "EACCES") /\
  snd (find deniedFs txt_under_r) = Err (FsError "EACCES") /\
  _newMatcher txt_under_r (regular "/r/a.txt" 1) = Ok true.
Proof. repeat split; reflexivity. Qed.

(** ** Depth zero *)

Lemma depth0_prunes_children fh root c :
  maxDepth fh = Some 0 -> deeper_children root ->
  child root c -> isDirOrFalse c = true ->
  _shouldFilterDirectory fh root c <> Ok false.
Proof.
  intros Hmax Hdeep Hch Hdir. unfold _shouldFilterDirectory, _atMaxDepth.
  rewrite Hmax.
  destruct (getDepthSync c) as [dc|e1] eqn:Hc; simpl; [|discriminate].
  destruct (getDepthSync root) as [dr|e2] eqn:Hr; simpl; [|discriminate].
  specialize (Hdeep c dr dc Hch Hdir Hr Hc).
  destruct (dc - dr >? 0) eqn:Hcmp; [discriminate|].
  rewrite Z.gtb_ltb in Hcmp. apply Z.ltb_ge in Hcmp. lia.
Qed.

Lemma depth0_Listed fh root d :
  maxDepth fh = Some 0 -> deeper_children root ->
  Listed fh root root d -> d = root.
Proof.
  intros Hmax Hdeep HL.
  inversion HL as [top Hnf | top files c d' Hnf Hl Hc Hd HL']; subst; auto.
  exfalso.
  apply depth0_prunes_children with (fh := fh) (root := root) (c := c); auto.
  - exists files. auto.
  - eapply Listed_top_not_pruned; eauto.
Qed.

Lemma depth0_Found fh root f :
  maxDepth fh = Some 0 -> deeper_children root ->
  Found fh root f -> child root f /\ isDirOrFalse f = false.
Proof.
  intros Hmax Hdeep (d & HL & Hch & _ & Hmode).
  apply depth0_Listed in HL; auto. subst d. split; [exact Hch|].
  destruct (_directoriesOnly fh); [|exact Hmode].
  destruct Hmode as [Hdir Hnf]. exfalso.
  now apply depth0_prunes_children with (fh := fh) (root := root) (c := f).
Qed.



Lemma deeper_children_tree_r : deeper_children tree_r.
Proof.
  intros c dr dc (files & Hl & Hin) Hdir Hr Hc.
  injection Hl as <-. injection Hr as <-.
  destruct Hin as [<-|[<-|[<-|[]]]]; simpl in Hdir; try discriminate.
  injection Hc as <-. lia.
Qed.


(** The two scenarios on /r/{a.txt, b.json, sub/c.txt}. *)
Example scenario_unlimited :
  snd (findSync sampleFs txt_under_r)
    = Ok [PathOnly "/r/a.txt"; PathOnly "/r/sub/c.txt"] /\
  snd (find sampleFs txt_under_r)
    = Ok [PathOnly "/r/a.txt"; PathOnly "/r/sub/c.txt"].
Proof. split; reflexivity. Qed.

Example scenario_depth_zero :
  snd (findSync sampleFs (depth 0 txt_under_r)) = Ok [PathOnly "/r/a.txt"] /\
  snd (find sampleFs (depth 0 txt_under_r)) = Ok [PathOnly "/r/a.txt"].
Proof. split; reflexivity. Qed.

(** ** Hidden directories *)

Lemma shouldFilter_hidden fh root d :
  _ignoreHiddenDirectories fh = true ->
  _shouldFilterDirectory fh root d = Ok false ->
  isHiddenSync d = Ok false.
Proof.
  unfold _shouldFilterDirectory. intros ->.
  destruct (_atMaxDepth fh root d) as [[|]|e]; simpl; congruence.
Qed.

Lemma shouldFilter_unlimited fh root d dr dd :
  _ignoreHiddenDirectories fh = true -> maxDepth fh = None ->
  getDepthSync root = Ok dr -> getDepthSync d = Ok dd ->
  _shouldFilterDirectory fh root d = isHiddenSync d.
Proof.
  unfold _shouldFilterDirectory, _atMaxDepth. intros -> -> -> ->. reflexivity.
Qed.

Lemma Listed_Visible fh root top d :
  _ignoreHiddenDirectories fh = true ->
  Listed fh root top d -> Visible top d.
Proof.
  intros Hflag. induction 1 as [top Hnf | top files c d Hnf Hl Hc Hd _ IH].
  - apply Visible_here. eapply shouldFilter_hidden; eauto.
  - apply Visible_below with (c := c); auto.
    + eapply shouldFilter_hidden; eauto.
    + exists files. auto.
Qed.

(** The scenario on /p/{x.js, .git/config, src/y.js, src/.cache/z.js}. *)
Example scenario_hidden :
  snd (findSync sampleFs visible_under_p)
    = Ok [PathOnly "/p/x.js"; PathOnly "/p/src/y.js"] /\
  snd (find sampleFs visible_under_p)
    = Ok [PathOnly "/p/x.js"; PathOnly "/p/src/y.js"] /\
  snd (findSync sampleFs (paths posix_normalize ["/p"] (create "/home")))
    = Ok [PathOnly "/p/x.js"; PathOnly "/p/.git/config";
          PathOnly "/p/src/y.js"; PathOnly "/p/src/.cache/z.js"].
Proof. repeat split; reflexivity. Qed.

(** ** The directory test *)

Lemma settled_Ok_inv fh root top st l st' :
  settled fh root top st = Ok (l, st') ->
  exists p, searchArray fh root top st = Ok (l, p).
Proof.
  intros H. pose proof (settled_agree fh root top st) as Ha. rewrite H in Ha.
  destruct (searchArray fh root top st) as [[l0 p]|e]; simpl in Ha; [|tauto].
  destruct Ha as [-> _]. eauto.
Qed.

Lemma settled_Err_of fh root top st e :
  searchArray fh root top st = Err e ->
  exists e', settled fh root top st = Err e'.
Proof.
  intros H. pose proof (settled_agree fh root top st) as Ha. rewrite H in Ha.
  destruct (settled fh root top st) as [[l0 p]|e']; simpl in Ha; [tauto|eauto].
Qed.

Lemma settled_Ok_of fh root top st l p :
  searchArray fh root top st = Ok (l, p) ->
  exists st', settled fh root top st = Ok (l, st').
Proof.
  intros H. pose proof (settled_agree fh root top st) as Ha. rewrite H in Ha.
  destruct (settled fh root top st) as [[l0 p0]|e']; simpl in Ha; [|tauto].
  destruct Ha as [<- _]. eauto.
Qed.

Lemma shouldFilter_Ok fh root d :
  isOk (getDepthSync root) = true -> isOk (getDepthSync d) = true ->
  isOk (isHiddenSync d) = true ->
  exists b, _shouldFilterDirectory fh root d = Ok b.
Proof.
  unfold _shouldFilterDirectory, _atMaxDepth.
  destruct (getDepthSync root) as [dr|]; [|discriminate].
  destruct (getDepthSync d) as [dd|]; [|discriminate].
  destruct (isHiddenSync d) as [h|]; [|discriminate]. intros _ _ _. simpl.
  destruct (match maxDepth fh with Some m => dd - dr >? m | None => false end);
    [eauto|]. destruct (_ignoreHiddenDirectories fh); eauto.
Qed.

Lemma quiet_fields fh f :
  quiet fh f = true ->
  isOk (getDepthSync f) = true /\ isOk (isHiddenSync f) = true /\
  if isDirOrFalse f then
    exists entries, getFilesSync f = Ok entries /\
                    forallb (quiet fh) entries = true
  else isOk (_isMatch fh f) = true.
Proof.
  destruct f as [n d h i s listing]. cbn [quiet getDepthSync isHiddenSync getFilesSync].
  intros H. apply andb_prop in H. destruct H as [H Hrest].
  apply andb_prop in H. destruct H as [Hd Hh]. repeat split; auto.
  destruct (isDirOrFalse (mkFile n d h i s listing)); [|exact Hrest].
  destruct listing as [entries|e]; [eauto|discriminate].
Qed.

(** The walk of a listing whose entries are quiet returns. *)
Lemma quiet_listing fh root top entries :
  isOk (getDepthSync root) = true ->
  Forall (fun c => quiet fh c = true -> isDirOrFalse c = true ->
                   forall st, exists l st', searchArray fh root c st = Ok (l, st'))
         entries ->
  forallb (quiet fh) entries = true ->
  getFilesSync top = Ok entries ->
  (exists b, _shouldFilterDirectory fh root top = Ok b) ->
  forall st, exists l st', searchArray fh root top st = Ok (l, st').
Proof.
  intros Hroot IH Hq Hl [b Hb] st. rewrite searchArray_step, Hb.
  destruct b; [eauto|]. rewrite Hl.
  rewrite Forall_forall in IH. rewrite forallb_forall in Hq.
  destruct (mapM_Ok (visitSync fh root) entries) with (st := st)
    as (items & s2 & Hm).
  { intros c s Hc. rewrite visitSync_step.
    destruct (quiet_fields fh c (Hq c Hc)) as (Hd & Hh & Hrest).
    destruct (isDirOrFalse c) eqn:Hdir; [|eauto].
    destruct (shouldFilter_Ok fh root c Hroot Hd Hh) as [skip ->].
    destruct (IH c Hc (Hq c Hc) Hdir (if skip then s else s ++ [c]))
      as (l & s' & ->). eauto. }
  rewrite Hm.
  destruct (filterR_Ok (_isMatch fh) (flat_map unItem items)) as [l ->]; eauto.
  intros f Hf. apply in_flat_map in Hf. destruct Hf as (item & Hitem & Hf).
  destruct (mapM_In_item _ _ _ Hm _ Hitem) as (c & s1 & s3 & Hc & Hv).
  destruct (visitSync_Ok_inv _ _ _ _ Hv)
    as [(Hnd & -> & _)|(_ & skip & sub & _ & -> & Hs)]; simpl in Hf.
  - destruct Hf as [<-|[]].
    destruct (quiet_fields fh c (Hq c Hc)) as (_ & _ & Hrest).
    rewrite Hnd in Hrest. destruct (_isMatch fh c); [eauto|discriminate].
  - destruct (searchArray_sound _ _ _ _ Hs f Hf) as (_ & _ & _ & _ & Hmatch).
    eauto.
Qed.

Lemma quiet_walk fh root c :
  isOk (getDepthSync root) = true ->
  quiet fh c = true -> isDirOrFalse c = true ->
  forall st, exists l st', searchArray fh root c st = Ok (l, st').
Proof.
  intros Hroot.
  induction c as [n d h i s e | n d h i s entries IH] using File_ind;
    intros Hq Hdir;
    destruct (quiet_fields _ _ Hq) as (Hd & Hh & Hrest);
    rewrite Hdir in Hrest; destruct Hrest as (entries' & Hl & Hall);
    simpl in Hl; [discriminate|]. injection Hl as <-.
  apply quiet_listing with (entries := entries); auto.
  now apply shouldFilter_Ok.
Qed.

Lemma quietTop_walk fh root :
  quietTop fh root = true ->
  forall st, exists l st', searchArray fh root root st = Ok (l, st').
Proof.
  unfold quietTop. intros H. apply andb_prop in H. destruct H as [H Hrest].
  apply andb_prop in H. destruct H as [Hd Hh].
  destruct (getFilesSync root) as [entries|e] eqn:Hl; [|discriminate].
  apply quiet_listing with (entries := entries); auto.
  - apply Forall_forall. intros c _. now apply quiet_walk.
  - now apply shouldFilter_Ok.
Qed.

Lemma isDirOrFalse_of_failure c e :
  isDirectorySync c = Err e -> isDirOrFalse c = false.
Proof. unfold isDirOrFalse. now intros ->. Qed.

(** A failure of the predicate on a tracked directory, in directory
    mode, fails the root. *)
Lemma rootSync_tracked_predicate_fails fs fh dir f e :
  _directoriesOnly fh = true ->
  Tracked fh (fs dir) (fs dir) f -> _isMatch fh f = Err e ->
  exists e', rootSync fs fh dir = Err e'.
Proof.
  intros Hmode (d & HL & Hch & Hdir & Hnf) Hf. unfold rootSync, rootOutcome.
  destruct (searchArray fh (fs dir) (fs dir) []) as [[files tr]|e0] eqn:Hs;
    [|eauto].
  rewrite Hmode. apply filterR_Err with (x := f) (e := e); [|exact Hf].
  eapply searchArray_tracked_complete; eauto.
Qed.

Lemma rootSync_fails_both fs fh dir e :
  In dir (getSearchPaths fh) ->
  rootSync fs (_initFilters fh) dir = Err e ->
  (exists e', snd (findSync fs fh) = Err e') /\
  (exists e', snd (find fs fh) = Err e').
Proof.
  intros Hdir Hr. split.
  - rewrite findSync_run. eapply pipeline_fails; eauto.
  - rewrite find_run.
    destruct (_searchAsync fs (_initFilters fh) dir) as [l|e0] eqn:Ha.
    + destruct (_searchAsync_Ok _ _ _ Ha) as (_ & _ & l' & Hl' & _). congruence.
    + eapply pipeline_fails; eauto.
Qed.

Lemma format_fails_both fs fh dir f e :
  In dir (getSearchPaths fh) ->
  Found (_initFilters fh) (fs dir) f -> formatResult fh f = Err e ->
  (exists e', snd (findSync fs fh) = Err e') /\
  (exists e', snd (find fs fh) = Err e').
Proof.
  intros Hdir Hf Hfmt. split.
  - destruct (snd (findSync fs fh)) as [results|e0] eqn:H; [|eauto].
    destruct (@findSync_complete fs fh results dir f H Hdir Hf) as (m & Hm & _).
    congruence.
  - destruct (snd (find fs fh)) as [results|e0] eqn:H; [|eauto].
    destruct (@find_complete fs fh results dir f H Hdir Hf) as (m & Hm & _).
    congruence.
Qed.

(** C3. In the walk of a root, whichever way [_search] runs: an entry
    whose directory test throws is handed on as the entry itself, as a
    non-directory is; it is returned exactly when the effective predicate
    accepts it; when nothing else throws the walk returns, so the failure
    of the test never reaches the caller. Every other failure is
    surfaced: that of the pruning test, of a listing or of the predicate
    on an entry makes the walk fail, and that of the predicate on a
    tracked directory or of the stat of a match makes [findSync] throw and
    [find] reject. *)
Theorem C3_directory_test_failure_is_absorbed fh root :
  (forall c e st,
     isDirectorySync c = Err e ->
     visitSync fh root c st = Ok (One c, st) /\
     visitAsync fh root c st = Ok (AOne c, st)) /\
  (forall d c e st l st',
     Listed fh root root d -> child d c -> isDirectorySync c = Err e ->
     settled fh root root st = Ok (l, st') ->
     (In c l <-> _isMatch fh c = Ok true)) /\
  (quietTop fh root = true ->
   forall st, exists l st', settled fh root root st = Ok (l, st')) /\
  (forall e st,
     _shouldFilterDirectory fh root root = Err e ->
     exists e', settled fh root root st = Err e') /\
  (forall d st,
     Listed fh root root d ->
     (exists e, getFilesSync d = Err e) \/
     (exists c e, child d c /\ isDirOrFalse c = true /\
                  _shouldFilterDirectory fh root c = Err e) \/
     (exists f e, child d f /\ isDirOrFalse f = false /\
                  _isMatch fh f = Err e) ->
     exists e', settled fh root root st = Err e') /\
  (forall fs dir f e,
     In dir (getSearchPaths fh) ->
     (Found (_initFilters fh) (fs dir) f /\ formatResult fh f = Err e) \/
     (_directoriesOnly fh = true /\
      Tracked (_initFilters fh) (fs dir) (fs dir) f /\
      _newMatcher fh f = Err e) ->
     (exists e', snd (findSync fs fh) = Err e') /\
     (exists e', snd (find fs fh) = Err e')).
Proof.
  split; [|split; [|split; [|split; [|split]]]].
  - intros c e st Hc. apply isDirOrFalse_of_failure in Hc.
    rewrite visitSync_step, visitAsync_run. unfold pushesOf, asyncItemOf.
    rewrite Hc. now rewrite app_nil_r.
  - intros d c e st l st' HL Hch Hc Hs. apply isDirOrFalse_of_failure in Hc.
    destruct (settled_Ok_inv _ _ _ _ Hs) as [p Hp]. split.
    + intros Hin.
      destruct (searchArray_sound _ _ _ _ Hp c Hin) as (_ & _ & _ & _ & Hm).
      exact Hm.
    + intros Hm. eapply searchArray_complete; eauto.
  - intros Hq st. destruct (quietTop_walk fh root Hq st) as (l & p & Hp).
    destruct (settled_Ok_of _ _ _ _ Hp) as [st' Hs]. eauto.
  - intros e st Hf. apply settled_Err_of with (e := e).
    rewrite searchArray_step. now rewrite Hf.
  - intros d st HL Hfail.
    assert (H : forall s, exists e, searchArray fh root d s = Err e).
    { pose proof (Listed_not_pruned HL) as Hnf.
      destruct Hfail as [[e He]|[(c & e & Hch & Hdir & He)|(f & e & Hch & Hnd & He)]];
        intros s.
      - exists e. now apply searchArray_listing_fails.
      - eapply searchArray_prune_fails; eauto.
      - eapply searchArray_predicate_fails; eauto. }
    destruct (searchArray_fails_below HL H st) as [e He].
    eapply settled_Err_of; eauto.
  - intros fs dir f e Hdir [[Hf Hfmt]|(Hmode & Ht & Hm)].
    + eapply format_fails_both; eauto.
    + destruct (@rootSync_tracked_predicate_fails fs (_initFilters fh) dir f e)
        as [e' He']; auto.
      eapply rootSync_fails_both; eauto.
Qed.

Example scenario_dangling :
  snd (findSync sampleFs all_under_q)
    = Ok [PathOnly "/q/link"; PathOnly "/q/a.txt"] /\
  snd (find sampleFs all_under_q)
    = Ok [PathOnly "/q/link"; PathOnly "/q/a.txt"].
Proof. split; reflexivity. Qed.

Lemma C3_witness :
  In (dangling "/q/link" 1) [dangling "/q/link" 1; regular "/q/a.txt" 1] <->
  _isMatch all_under_q (dangling "/q/link" 1) = Ok true.
Proof.
  destruct (C3_directory_test_failure_is_absorbed all_under_q tree_q)
    as (_ & H & _).
  apply (H tree_q (dangling "/q/link" 1) (FsError "ENOENT") [] _ []).
  - apply Listed_here. reflexivity.
  - exists [dangling "/q/link" 1; regular "/q/a.txt" 1]. simpl. auto.
  - reflexivity.
  - reflexivity.
Defined.

(** ** The two pipelines side by side *)

Lemma mapR_sameMatches A (f g : A -> result (list File)) l :
  (forall a, In a l -> sameMatches (f a) (g a)) ->
  match mapR f l, mapR g l with
  | Ok x, Ok y => Forall2 (@Permutation File) x y
  | Err _, Err _ => True
  | _, _ => False
  end.
Proof.
  induction l as [|a r IH]; simpl; intros H; [constructor|].
  pose proof (H a (or_introl eq_refl)) as Ha.
  destruct (f a) as [x|e1], (g a) as [y|e2]; simpl in *; try tauto.
  specialize (IH (fun a' Hin => H a' (or_intror Hin))).
  destruct (mapR f r) as [xs|e3], (mapR g r) as [ys|e4]; simpl; try tauto.
  now constructor.
Qed.

Lemma Permutation_concat (x y : list (list File)) :
  Forall2 (@Permutation File) x y -> Permutation (List.concat x) (List.concat y).
Proof.
  induction 1; simpl; [constructor|]. now apply Permutation_app.
Qed.

Lemma mapR_perm A B (f : A -> result B) l l' :
  Permutation l l' -> sameMatches (mapR f l) (mapR f l').
Proof.
  induction 1 as [|x l l' _ IH|x y l|l l' l'' _ IH1 _ IH2]; simpl.
  - constructor.
  - destruct (f x); simpl; auto.
    destruct (mapR f l), (mapR f l'); simpl in *; auto.
  - destruct (f y), (f x); simpl; auto;
      destruct (mapR f l); simpl; auto using perm_swap.
  - destruct (mapR f l), (mapR f l'), (mapR f l''); simpl in *; try tauto.
    eapply Permutation_trans; eauto.
Qed.

Lemma pipeline_agree fh e1 e2 s1 s2 roots :
  (forall dir, In dir roots -> sameMatches (s1 dir) (s2 dir)) ->
  sameMatches (pipeline fh e1 s1 roots) (pipeline fh e2 s2 roots).
Proof.
  intros H. unfold pipeline. pose proof (mapR_sameMatches s1 s2 roots H) as Hm.
  destruct (mapR s1 roots) as [x|e3], (mapR s2 roots) as [y|e4];
    simpl in *; try tauto.
  rewrite !reduceFlatten_run. inversion Hm; subst; simpl; auto.
  apply mapR_perm. apply Permutation_app; [assumption|].
  now apply Permutation_concat.
Qed.

(** On an object no synchronous search has run on, and with no root that
    is itself pruned, [find] and [findSync] fail together or return the
    same matches. *)
Lemma find_agrees_with_findSync fs fh :
  _sync fh = false ->
  (forall dir, In dir (getSearchPaths fh) ->
     _shouldFilterDirectory fh (fs dir) (fs dir) = Ok false) ->
  sameMatches (snd (findSync fs fh)) (snd (find fs fh)).
Proof.
  intros Hs Hroots. rewrite findSync_run, find_run. apply pipeline_agree.
  intros dir Hdir. apply root_agree; [exact Hs|]. now apply Hroots.
Qed.

(** A root that is itself pruned makes [find] reject. *)
Lemma find_rejects_pruned_root fs fh dir :
  In dir (getSearchPaths fh) ->
  _shouldFilterDirectory fh (fs dir) (fs dir) = Ok true ->
  exists e, snd (find fs fh) = Err e.
Proof.
  intros Hdir Hf. rewrite find_run.
  destruct (_searchAsync fs (_initFilters fh) dir) as [l|e] eqn:Ha.
  - destruct (_searchAsync_Ok _ _ _ Ha) as (_ & Hnf & _).
    change (_shouldFilterDirectory (_initFilters fh))
      with (_shouldFilterDirectory fh) in Hnf. congruence.
  - eapply pipeline_fails; eauto.
Qed.

(** C1, where the code departs from it. With a root that is itself pruned
    [_search] returns a plain array before any promise exists:
    [findSync] returns no match and [find] is rejected with a TypeError. *)
Theorem C1_pruned_root_diverges :
  snd (findSync sampleFs hidden_root) = Ok [] /\
  snd (find sampleFs hidden_root)
    = Err (TypeError "pending.then is not a function").
Proof. split; reflexivity. Qed.

(** ** Reusing the object *)

Lemma find_after_findSync_rejects fs fh :
  exists e, snd (find fs (fst (findSync fs fh))) = Err e.
Proof.
  unfold findSync. rewrite mapSearchSync_run. cbn [fst].
  change (getSearchPaths (_initFilters fh)) with (getSearchPaths fh).
  rewrite find_run. unfold pipeline.
  destruct (getSearchPaths fh) as [|dir rest] eqn:Hroots.
  - change (getSearchPaths (_initFilters fh)) with (getSearchPaths fh).
    rewrite Hroots. simpl. eauto.
  - change (getSearchPaths (set_sync true (_initFilters fh)))
      with (getSearchPaths fh).
    rewrite Hroots. cbn [mapR].
    rewrite _searchAsync_stale by reflexivity.
    destruct (searchArray _ (fs dir) (fs dir) []); simpl; eauto.
Qed.

Lemma find_twice fs fh : find fs (fst (find fs fh)) = find fs fh.
Proof. reflexivity. Qed.

Lemma findSync_after_find fs fh :
  findSync fs (fst (find fs fh)) = findSync fs fh.
Proof. reflexivity. Qed.

Lemma findSync_twice fs fh :
  snd (findSync fs (fst (findSync fs fh))) = snd (findSync fs fh).
Proof.
  rewrite !findSync_run. unfold findSync. rewrite mapSearchSync_run. cbn [fst].
  change (getSearchPaths (_initFilters fh)) with (getSearchPaths fh).
  destruct (getSearchPaths fh) as [|dir rest] eqn:Hroots.
  - change (getSearchPaths (_initFilters fh)) with (getSearchPaths fh).
    now rewrite Hroots.
  - change (getSearchPaths (set_sync true (_initFilters fh)))
      with (getSearchPaths fh).
    rewrite Hroots. unfold pipeline. f_equal.
    apply mapR_ext. intros a.
    change (_initFilters (set_sync true (_initFilters fh)))
      with (set_sync true (_initFilters fh)).
    apply rootSync_set_sync.
Qed.

(** C4, where the code departs from it. [_searchSync] sets [_sync] and
    nothing unsets it: on /r/{a.txt, b.json, sub/c.txt} a [find] on a
    fresh request returns the two .txt files, the same [find] after a
    [findSync] on the same object is rejected with a TypeError. *)
Theorem C4_find_after_findSync_diverges :
  snd (find sampleFs txt_under_r)
    = Ok [PathOnly "/r/a.txt"; PathOnly "/r/sub/c.txt"] /\
  snd (find sampleFs (fst (findSync sampleFs txt_under_r)))
    = Err (TypeError "pending.then is not a function").
Proof. split; reflexivity. Qed.

(** ** Resolving the roots *)

(** C5, where the code departs from it. [paths] removes duplicates among
    the strings as supplied and normalizes afterwards: two different
    spellings of one path both stay. *)
Theorem C5_duplicate_survives_normalization :
  posix_normalize "/a/b" = posix_normalize "/a//b" /\
  _searchPaths (paths posix_normalize ["/a/b"; "/a//b"] (create "/home"))
    = ["/a/b"; "/a/b"] /\
  getSearchPaths (paths posix_normalize ["/a/b"; "/a//b"] (create "/home"))
    = ["/a/b"; "/a/b"] /\
  snd (findSync sampleFs
         (paths posix_normalize ["/a/b"; "/a//b"] (create "/home")))
    = Ok [PathOnly "/a/b/c.txt"; PathOnly "/a/b/c.txt"].
Proof. repeat split; reflexivity. Qed.

Lemma uniq_two p q : p <> q -> uniq [p; q] = [p; q].
Proof.
  intros H. unfold uniq. simpl.
  destruct (String.eqb_spec q p) as [->|_]; [now destruct H|reflexivity].
Qed.

(** Whatever [path.normalize] is, two different strings it sends to one
    path leave two equal roots. *)
Lemma paths_keeps_equivalent_spellings normalize p q fh :
  p <> q -> normalize p = normalize q ->
  _searchPaths (paths normalize [p; q] fh) = [normalize p; normalize p].
Proof.
  intros Hpq Hn. unfold paths, set_searchPaths. cbn [_searchPaths].
  rewrite uniq_two by exact Hpq. simpl. now rewrite Hn.
Qed.




Lemma reducePaths_In l p :
  In p (reducePaths l) <->
  In p l /\ forall base, In base l -> isStrictDescendant base p = false.
Proof.
  unfold reducePaths. rewrite filter_In, negb_true_iff. split.
  - intros [Hin Hex]. split; [exact Hin|]. intros base Hb.
    destruct (isStrictDescendant base p) eqn:Hd; [|reflexivity].
    assert (existsb (fun base => isStrictDescendant base p) l = true)
      by (apply existsb_exists; eauto). congruence.
  - intros [Hin Hall]. split; [exact Hin|].
    destruct (existsb (fun base => isStrictDescendant base p) l) eqn:Hex;
      [|reflexivity].
    apply existsb_exists in Hex. destruct Hex as (base & Hb & Hd).
    rewrite (Hall base Hb) in Hd. discriminate.
Qed.

(** C6. [getSearchPaths] drops the roots lying strictly below another
    root exactly when no depth limit is set: without a limit it returns
    the reduced roots, none of them below a configured root, and with a
    limit it returns the roots as configured. On the roots /a and /a/b:
    without a limit only /a is searched and /a/b/c.txt is returned once,
    with a limit both roots are searched. *)
Theorem C6_descendant_roots_dropped_iff_unlimited fh :
  getSearchPaths fh =
    match maxDepth fh with
    | None => reducePaths (_searchPaths fh)
    | Some _ => _searchPaths fh
    end /\
  (maxDepth fh = None ->
   forall p, In p (getSearchPaths fh) <->
             In p (_searchPaths fh) /\
             forall base, In base (_searchPaths fh) ->
                          isStrictDescendant base p = false) /\
  (forall n, getSearchPaths (depth n fh) = _searchPaths fh) /\
  getSearchPaths nested_roots = ["/a"] /\
  (forall n, getSearchPaths (depth n nested_roots) = ["/a"; "/a/b"]) /\
  snd (findSync sampleFs nested_roots) = Ok [PathOnly "/a/b/c.txt"] /\
  snd (findSync sampleFs (depth 5 nested_roots))
    = Ok [PathOnly "/a/b/c.txt"; PathOnly "/a/b/c.txt"].
Proof.
  split; [unfold getSearchPaths, copy; now destruct (maxDepth fh)|].
  split; [|repeat split; reflexivity].
  intros Hmax p. unfold getSearchPaths, copy. rewrite Hmax.
  apply reducePaths_In.
Qed.

Lemma C6_witness :
  In "/a" (getSearchPaths nested_roots) <->
  In "/a" (_searchPaths nested_roots) /\
  forall base, In base (_searchPaths nested_roots) ->
               isStrictDescendant base "/a" = false.
Proof.
  destruct (C6_descendant_roots_dropped_iff_unlimited nested_roots)
    as (_ & H & _).
  apply (H eq_refl "/a").
Defined.

(** ** Composing the filters *)








(** [discard("*.tmp*")], the pattern of the method's own example, is not
    a regular expression: the filter throws on every entry and the
    search fails; with a pattern that is one the entries it matches are
    left out. *)
Example discard_invalid_pattern :
  _newMatcher
    (discard sampleRegExp ["*.tmp*"]
       (paths posix_normalize ["/r"] (create "/home")))
    (regular "/r/a.txt" 1)
    = Err (SyntaxError "Nothing to repeat") /\
  snd (findSync sampleFs
         (discard sampleRegExp ["*.tmp*"]
            (paths posix_normalize ["/r"] (create "/home"))))
    = Err (SyntaxError "Nothing to repeat") /\
  snd (find sampleFs
         (discard sampleRegExp [".json"]
            (paths posix_normalize ["/r"] (create "/home"))))
    = Ok [PathOnly "/r/a.txt"; PathOnly "/r/sub/c.txt"].
Proof. repeat split; reflexivity. Qed.

(** Negating each filter instead would reject the entry the toggle
    accepts. *)
Example not_is_not_filterwise :
  _newMatcher accept_reject (regular "/r/a.txt" 1) = Ok true /\
  compose (map negate (_filters accept_reject)) (regular "/r/a.txt" 1)
    = Ok false.
Proof. split; reflexivity. Qed.

(** ** The default root *)

Lemma discard_searchPaths re patterns : forall fh,
  _searchPaths (discard re patterns fh) = _searchPaths fh.
Proof.
  unfold discard. induction patterns as [|p r IH]; intros fh; simpl;
    [reflexivity|]. now rewrite IH.
Qed.

Lemma configure_searchPaths re calls : forall fh,
  _searchPaths (configure re calls fh) = _searchPaths fh.
Proof.
  unfold configure. induction calls as [|s r IH]; intros fh; simpl;
    [reflexivity|]. rewrite IH.
  destruct s; try reflexivity. apply discard_searchPaths.
Qed.

Lemma strict_prefix_irrefl l : strict_prefix l l = false.
Proof.
  induction l as [|x r IH]; simpl; [reflexivity|].
  now rewrite IH, andb_false_r.
Qed.

Lemma reducePaths_single p : reducePaths [p] = [p].
Proof.
  unfold reducePaths, isStrictDescendant. simpl.
  now rewrite strict_prefix_irrefl, andb_false_r.
Qed.

(** C10. A request on which neither [path] nor [paths] was called,
    whatever else was configured, has the working directory of its
    construction as its one root, and [findSync] and [find] search that
    root alone. [paths] then sets the roots to its arguments, normalized:
    the default is not kept. *)
Theorem C10_default_root_is_the_working_directory cwd re calls :
  _searchPaths (configure re calls (create cwd)) = [cwd] /\
  getSearchPaths (configure re calls (create cwd)) = [cwd] /\
  (forall fs,
     snd (findSync fs (configure re calls (create cwd))) =
       (files <- rootSync fs (_initFilters (configure re calls (create cwd))) cwd ;;
        mapR (formatResult (configure re calls (create cwd))) files)%result /\
     snd (find fs (configure re calls (create cwd))) =
       (files <- _searchAsync fs (_initFilters (configure re calls (create cwd))) cwd ;;
        mapR (formatResult (configure re calls (create cwd))) files)%result) /\
  (forall normalize args,
     _searchPaths (paths normalize args (configure re calls (create cwd)))
       = map normalize (uniq args) /\
     getSearchPaths
       (depth 0 (paths normalize args (configure re calls (create cwd))))
       = map normalize (uniq args)).
Proof.
  assert (Hp : _searchPaths (configure re calls (create cwd)) = [cwd])
    by now rewrite configure_searchPaths.
  assert (Hg : getSearchPaths (configure re calls (create cwd)) = [cwd]).
  { unfold getSearchPaths, copy. rewrite Hp, reducePaths_single.
    now destruct (maxDepth _). }
  split; [exact Hp|]. split; [exact Hg|]. split.
  - intros fs. rewrite findSync_run, find_run. unfold pipeline. rewrite Hg.
    cbn [mapR]. split.
    + destruct (rootSync fs _ cwd); reflexivity.
    + destruct (_searchAsync fs _ cwd); reflexivity.
  - intros normalize args. split; reflexivity.
Qed.

(* ===================================================================== *)
(** * Further properties of the search *)

(** ** What is returned *)

Lemma results_sound fs fh results :
  snd (findSync fs fh) = Ok results \/ snd (find fs fh) = Ok results ->
  forall m, In m results ->
    exists dir f, In dir (getSearchPaths fh) /\
                  Found (_initFilters fh) (fs dir) f /\
                  formatResult fh f = Ok m.
Proof.
  intros Hres m Hm.
  destruct Hres as [H|H]; [eapply findSync_sound|eapply find_sound]; eauto.
Qed.

(** X1. The matches of a search that returns are exactly the formatted
    entries its roots may contribute: the entries of the listings asked
    for that the effective predicate accepts, non-directories in file
    mode and unpruned directories in directory mode. *)
Theorem matches_are_the_found_entries fs fh results :
  snd (findSync fs fh) = Ok results \/ snd (find fs fh) = Ok results ->
  forall m,
    In m results <->
    exists dir f, In dir (getSearchPaths fh) /\
                  Found (_initFilters fh) (fs dir) f /\
                  formatResult fh f = Ok m.
Proof.
  intros Hres m. split.
  - now apply results_sound.
  - intros (dir & f & Hdir & Hf & Hfmt).
    assert (H : exists m', formatResult fh f = Ok m' /\ In m' results).
    { destruct Hres as [H|H];
        [eapply findSync_complete|eapply find_complete]; eauto. }
    destruct H as (m' & Hm' & Hin). congruence.
Qed.

Lemma matches_are_the_found_entries_witness :
  In (PathOnly "/r/sub/c.txt") [PathOnly "/r/a.txt"; PathOnly "/r/sub/c.txt"] <->
  exists dir f, In dir (getSearchPaths txt_under_r) /\
                Found (_initFilters txt_under_r) (sampleFs dir) f /\
                formatResult txt_under_r f = Ok (PathOnly "/r/sub/c.txt").
Proof.
  apply (@matches_are_the_found_entries sampleFs txt_under_r
           [PathOnly "/r/a.txt"; PathOnly "/r/sub/c.txt"]).
  left. reflexivity.
Defined.




(** ** No root *)

(** X3. With no root to search, [findSync] throws a TypeError and [find] is
    rejected: neither returns the empty list. *)
Theorem no_root_fails fs fh :
  getSearchPaths fh = [] ->
  snd (findSync fs fh)
    = Err (TypeError "Reduce of empty array with no initial value") /\
  exists e, snd (find fs fh) = Err e.
Proof.
  intros H. rewrite findSync_run, find_run. unfold pipeline. rewrite H.
  simpl. eauto.
Qed.

Lemma no_root_fails_witness :
  snd (findSync sampleFs (paths posix_normalize [] (create "/home")))
    = Err (TypeError "Reduce of empty array with no initial value") /\
  exists e, snd (find sampleFs (paths posix_normalize [] (create "/home")))
            = Err e.
Proof.
  apply (@no_root_fails sampleFs (paths posix_normalize [] (create "/home"))).
  reflexivity.
Defined.

(** ** The depth limit *)




(** X5. In directory mode [depth(0)] returns no directory at all: the
    directories of a root's own listing are already beyond the limit. The
    depth reported for a listed directory is taken to be greater than the
    depth of the directory listing it. *)
Theorem directories_at_depth_zero fs fh results :
  maxDepth fh = Some 0 -> _directoriesOnly fh = true ->
  (forall dir, In dir (getSearchPaths fh) -> deeper_children (fs dir)) ->
  snd (findSync fs fh) = Ok results \/ snd (find fs fh) = Ok results ->
  results = [].
Proof.
  intros Hmax Hmode Hdeep Hres. destruct results as [|m rest]; [reflexivity|].
  exfalso.
  assert (Hm : In m (m :: rest)) by (simpl; auto).
  apply (results_sound fs fh Hres) in Hm.
  destruct Hm as (dir & f & Hdir & Hf & _).
  destruct (@depth0_Found (_initFilters fh) (fs dir) f Hmax (Hdeep dir Hdir) Hf)
    as [_ Hnd].
  destruct Hf as (d & _ & _ & _ & Hdo).
  change (_directoriesOnly (_initFilters fh)) with (_directoriesOnly fh) in Hdo.
  rewrite Hmode in Hdo. destruct Hdo as [Hd _]. congruence.
Qed.

Lemma directories_at_depth_zero_witness :
  exists results,
    snd (find sampleFs (directory (depth 0 txt_under_r))) = Ok results /\
    results = [].
Proof.
  exists []. split; [reflexivity|].
  apply (@directories_at_depth_zero sampleFs
           (directory (depth 0 txt_under_r)) []).
  - reflexivity.
  - reflexivity.
  - intros dir [<-|[]]. exact deeper_children_tree_r.
  - right. reflexivity.
Defined.

(** ** Roots that are pruned *)

Lemma negative_depth_prunes_root fh root n dr :
  maxDepth fh = Some n -> n < 0 -> getDepthSync root = Ok dr ->
  _shouldFilterDirectory fh root root = Ok true.
Proof.
  unfold _shouldFilterDirectory, _atMaxDepth. intros -> Hn ->. simpl.
  replace (dr - dr) with 0 by lia.
  destruct (0 >? n) eqn:Hcmp; [reflexivity|].
  rewrite Z.gtb_ltb in Hcmp. apply Z.ltb_ge in Hcmp. lia.
Qed.

Lemma rootSync_pruned fs fh dir :
  _shouldFilterDirectory fh (fs dir) (fs dir) = Ok true ->
  rootSync fs fh dir = Ok [].
Proof.
  intros Hf. unfold rootSync, rootOutcome. rewrite searchArray_step, Hf.
  now destruct (_directoriesOnly fh).
Qed.

Lemma mapR_const_nil (f : string -> result (list File)) l :
  (forall a, In a l -> f a = Ok []) ->
  mapR f l = Ok (map (fun _ => []) l).
Proof.
  induction l as [|a r IH]; intros H; simpl; [reflexivity|].
  rewrite (H a (or_introl eq_refl)), IH; [reflexivity|].
  intros; apply H; simpl; auto.
Qed.

Lemma concat_nils A B (l : list A) :
  List.concat (map (fun _ => @nil B) l) = [].
Proof. induction l; simpl; auto. Qed.

Lemma pruned_roots_find_nothing fs fh :
  getSearchPaths fh <> [] ->
  (forall dir, In dir (getSearchPaths fh) ->
     _shouldFilterDirectory fh (fs dir) (fs dir) = Ok true) ->
  snd (findSync fs fh) = Ok [] /\ exists e, snd (find fs fh) = Err e.
Proof.
  intros Hne Hpruned. split.
  - rewrite findSync_run. unfold pipeline.
    rewrite mapR_const_nil
      by (intros dir Hdir; apply rootSync_pruned; now apply Hpruned).
    simpl. rewrite reduceFlatten_run.
    destruct (getSearchPaths fh) as [|dir rest]; [now destruct Hne|].
    simpl. now rewrite concat_nils.
  - destruct (getSearchPaths fh) as [|dir rest] eqn:Hroots; [now destruct Hne|].
    apply find_rejects_pruned_root with (dir := dir).
    + rewrite Hroots. simpl. auto.
    + apply Hpruned. simpl. auto.
Qed.

(** X6. With a negative depth limit the roots themselves are beyond the
    limit: [findSync] returns no match whatever lies below the roots, and
    [find] is rejected. *)
Theorem negative_depth_finds_nothing fs fh n :
  maxDepth fh = Some n -> n < 0 ->
  getSearchPaths fh <> [] ->
  (forall dir, In dir (getSearchPaths fh) -> isOk (getDepthSync (fs dir)) = true) ->
  snd (findSync fs fh) = Ok [] /\ exists e, snd (find fs fh) = Err e.
Proof.
  intros Hmax Hn Hne Hdepth. apply pruned_roots_find_nothing; [exact Hne|].
  intros dir Hdir. specialize (Hdepth dir Hdir).
  destruct (getDepthSync (fs dir)) as [dr|e] eqn:Hd; [|discriminate].
  eapply negative_depth_prunes_root; eauto.
Qed.

Lemma negative_depth_finds_nothing_witness :
  snd (findSync sampleFs (depth (-1) txt_under_r)) = Ok [] /\
  exists e, snd (find sampleFs (depth (-1) txt_under_r)) = Err e.
Proof.
  apply (@negative_depth_finds_nothing sampleFs (depth (-1) txt_under_r) (-1)).
  - reflexivity.
  - lia.
  - discriminate.
  - intros dir [<-|[]]. reflexivity.
Defined.

Lemma hidden_root_is_pruned fh root :
  _ignoreHiddenDirectories fh = true ->
  isOk (getDepthSync root) = true -> isHiddenSync root = Ok true ->
  _shouldFilterDirectory fh root root = Ok true.
Proof.
  unfold _shouldFilterDirectory, _atMaxDepth. intros -> Hd ->.
  destruct (getDepthSync root) as [dr|e]; [|discriminate]. simpl.
  now destruct (match maxDepth fh with Some m => dr - dr >? m | None => false end).
Qed.

(** X7. With [ignoreHiddenDirectories()], roots that are hidden directories
    themselves are not searched: [findSync] returns no match whatever
    they hold, and [find] is rejected. *)
Theorem hidden_roots_find_nothing fs fh :
  _ignoreHiddenDirectories fh = true ->
  getSearchPaths fh <> [] ->
  (forall dir, In dir (getSearchPaths fh) ->
     isOk (getDepthSync (fs dir)) = true /\ isHiddenSync (fs dir) = Ok true) ->
  snd (findSync fs fh) = Ok [] /\ exists e, snd (find fs fh) = Err e.
Proof.
  intros Hflag Hne Hroots. apply pruned_roots_find_nothing; [exact Hne|].
  intros dir Hdir. destruct (Hroots dir Hdir) as [Hd Hh].
  now apply hidden_root_is_pruned.
Qed.

Lemma hidden_roots_find_nothing_witness :
  snd (findSync sampleFs hidden_root) = Ok [] /\
  exists e, snd (find sampleFs hidden_root) = Err e.
Proof.
  apply (@hidden_roots_find_nothing sampleFs hidden_root).
  - reflexivity.
  - discriminate.
  - intros dir [<-|[]]. split; reflexivity.
Defined.

(** ** The order of the matches *)

Lemma rootOutcome_same_files fh x y :
  _directoriesOnly fh = false -> agree x y ->
  sameOutcome (rootOutcome fh x) (rootOutcome fh y).
Proof.
  intros Hmode. destruct x as [[a p]|e1], y as [[b q]|e2]; simpl; try tauto.
  intros [-> _]. now rewrite Hmode.
Qed.

Lemma root_same_files fs fh dir :
  _directoriesOnly fh = false -> _sync fh = false ->
  _shouldFilterDirectory fh (fs dir) (fs dir) = Ok false ->
  sameOutcome (rootSync fs fh dir) (_searchAsync fs fh dir).
Proof.
  intros Hmode Hs Hnf. rewrite _searchAsync_fresh, Hnf by exact Hs.
  apply rootOutcome_same_files; [exact Hmode|].
  pose proof (settled_agree fh (fs dir) (fs dir) []) as H.
  now rewrite settled_async, Hnf in H by exact Hs.
Qed.

Lemma mapR_sameOutcome A B (f g : A -> result (list B)) l :
  (forall a, In a l -> sameOutcome (f a) (g a)) ->
  sameOutcome (mapR f l) (mapR g l).
Proof.
  induction l as [|a r IH]; simpl; intros H; [reflexivity|].
  pose proof (H a (or_introl eq_refl)) as Ha.
  destruct (f a) as [x|e1], (g a) as [y|e2]; simpl in *; try tauto.
  specialize (IH (fun a' Hin => H a' (or_intror Hin))). subst y.
  destruct (mapR f r) as [xs|e3], (mapR g r) as [ys|e4]; simpl in *; try tauto.
  now subst.
Qed.

(** X8. In file mode, on an object no synchronous search has run on and with
    no root that is itself pruned, [find] returns the list [findSync]
    returns, in the same order, or both fail. *)
Theorem find_keeps_the_order_of_findSync fs fh :
  _directoriesOnly fh = false -> _sync fh = false ->
  (forall dir, In dir (getSearchPaths fh) ->
     _shouldFilterDirectory fh (fs dir) (fs dir) = Ok false) ->
  sameOutcome (snd (findSync fs fh)) (snd (find fs fh)).
Proof.
  intros Hmode Hs Hroots. rewrite findSync_run, find_run. unfold pipeline.
  pose proof (@mapR_sameOutcome _ _ (rootSync fs (_initFilters fh))
                (_searchAsync fs (_initFilters fh)) (getSearchPaths fh)) as Hm.
  assert (H : forall a, In a (getSearchPaths fh) ->
            sameOutcome (rootSync fs (_initFilters fh) a)
                        (_searchAsync fs (_initFilters fh) a)).
  { intros dir Hdir. apply root_same_files; auto. now apply Hroots. }
  specialize (Hm H).
  destruct (mapR (rootSync fs (_initFilters fh)) (getSearchPaths fh)) as [x|e1],
           (mapR (_searchAsync fs (_initFilters fh)) (getSearchPaths fh)) as [y|e2];
    simpl in *; try tauto.
  subst y. rewrite !reduceFlatten_run. destruct x as [|first rest]; simpl; auto.
  destruct (mapR (formatResult (_initFilters fh)) (first ++ List.concat rest));
    simpl; auto.
Qed.

Lemma find_keeps_the_order_of_findSync_witness :
  sameOutcome (snd (findSync sampleFs visible_under_p))
              (snd (find sampleFs visible_under_p)).
Proof.
  apply (@find_keeps_the_order_of_findSync sampleFs visible_under_p).
  - reflexivity.
  - reflexivity.
  - intros dir [<-|[]]. reflexivity.
Defined.

(** ** The walk in closed form *)

Lemma visited_eq fh root top :
  visited fh root top =
  match _shouldFilterDirectory fh root top with
  | Ok false =>
      match getFilesSync top with
      | Ok entries =>
          flat_map (fun c => if isDirOrFalse c then visited fh root c else [c])
                   entries
      | Err _ => []
      end
  | _ => []
  end.
Proof. destruct top; reflexivity. Qed.

Lemma filterR_filter fh l l' :
  filterR (_isMatch fh) l = Ok l' -> l' = filter (accepted fh) l.
Proof.
  revert l'. induction l as [|x r IH]; simpl; intros l' H.
  - now injection H as <-.
  - unfold accepted at 1.
    destruct (_isMatch fh x) as [b|e]; simpl in H; [|discriminate].
    destruct (filterR (_isMatch fh) r) as [rest|e]; simpl in H; [|discriminate].
    injection H as <-. rewrite (IH rest eq_refl). now destruct b.
Qed.

Lemma filter_flat_map A B (p : B -> bool) (g : A -> list B) l :
  filter p (flat_map g l) = flat_map (fun a => filter p (g a)) l.
Proof.
  induction l as [|a r IH]; simpl; [reflexivity|].
  now rewrite filter_app, IH.
Qed.

Lemma filter_idem A (p : A -> bool) l : filter p (filter p l) = filter p l.
Proof.
  induction l as [|a r IH]; simpl; [reflexivity|].
  destruct (p a) eqn:Ha; simpl; [rewrite Ha|]; now rewrite IH.
Qed.

Lemma mapM_Forall2 A B (f : A -> M B) l : forall st items st',
  mapM f l st = Ok (items, st') ->
  Forall2 (fun a item => exists s1 s2, f a s1 = Ok (item, s2)) l items.
Proof.
  induction l as [|a r IH]; simpl; intros st items st' H.
  - injection H as <- <-. constructor.
  - unfold bind in H. destruct (f a st) as [[b s1]|e] eqn:Ha; [|discriminate].
    destruct (mapM f r s1) as [[bs s2]|e] eqn:Hr; [|discriminate].
    injection H as <- <-. constructor; eauto.
Qed.

Lemma searchArray_closed_form fh root top :
  forall st l st',
    searchArray fh root top st = Ok (l, st') ->
    l = filter (accepted fh) (visited fh root top).
Proof.
  induction top as [n dp h i s e | n dp h i s files IH] using File_ind;
    intros st l st' H; rewrite visited_eq;
    destruct (searchArray_Ok_inv _ _ _ _ H)
      as [(-> & -> & _)|(-> & files' & items & Hl & Hm & Hfil)];
    try reflexivity; simpl in Hl; [discriminate|].
  injection Hl as <-. cbv beta iota delta [getFilesSync].
  rewrite (filterR_filter _ _ Hfil), filter_flat_map.
  apply mapM_Forall2 in Hm. clear Hfil H.
  induction Hm as [|c item r items' (s1 & s2 & Hv) _ IHr]; [reflexivity|].
  inversion IH as [|? ? IHc IHrest]; subst. simpl.
  rewrite filter_app, (IHr IHrest). f_equal.
  destruct (visitSync_Ok_inv _ _ _ _ Hv)
    as [(Hnd & -> & _)|(Hd & skip & sub & _ & -> & Hs)].
  - now rewrite Hnd.
  - rewrite Hd. simpl. rewrite (IHc _ _ _ Hs). apply filter_idem.
Qed.

(** X9. Whichever way [_search] runs, what it returns is the sequence of the
    entries handed to the predicate, depth first and in listing order,
    with those the predicate does not accept left out: filtering anew at
    every level has the effect of filtering once. *)
Theorem walk_returns_the_accepted_entries_in_order fh root top st l st' :
  settled fh root top st = Ok (l, st') ->
  l = filter (accepted fh) (visited fh root top).
Proof.
  intros H. destruct (settled_Ok_inv _ _ _ _ H) as [p Hp].
  eapply searchArray_closed_form; eauto.
Qed.

Lemma walk_returns_the_accepted_entries_in_order_witness :
  [regular "/r/a.txt" 1; regular "/r/sub/c.txt" 2]
  = filter (accepted (_initFilters txt_under_r))
           (visited (_initFilters txt_under_r) tree_r tree_r).
Proof.
  apply (@walk_returns_the_accepted_entries_in_order
           (_initFilters txt_under_r) tree_r tree_r [] _ [sub_c]).
  reflexivity.
Defined.

(** ** Objects that prune and match alike *)

Lemma filterR_ext p q l :
  (forall x, p x = q x) -> filterR p l = filterR q l.
Proof.
  intros H. induction l as [|x r IH]; simpl; [reflexivity|].
  now rewrite H, IH.
Qed.

Lemma searchArray_sameWalk fh fh' root path :
  sameWalk fh fh' ->
  forall st, searchArray fh root path st = searchArray fh' root path st.
Proof.
  intros [Hprune Hmatch].
  induction path as [n d h i s e | n d h i s files IH] using File_ind;
    intros st; rewrite !searchArray_step, <- Hprune;
    destruct (_shouldFilterDirectory fh root _) as [[|]|e1]; try reflexivity.
  cbv beta iota delta [getFilesSync].
  rewrite mapM_ext_in with (g := visitSync fh' root).
  - destruct (mapM (visitSync fh' root) files st) as [[items s2]|e2];
      [|reflexivity].
    now rewrite filterR_ext with (q := _isMatch fh').
  - intros c Hc s2. rewrite Forall_forall in IH. rewrite !visitSync_step.
    rewrite <- Hprune. destruct (isDirOrFalse c); [|reflexivity].
    destruct (_shouldFilterDirectory fh root c) as [skip|e2]; [|reflexivity].
    now rewrite IH.
Qed.

Lemma pushesAll_sameWalk fh fh' root files :
  sameWalk fh fh' -> pushesAll fh root files = pushesAll fh' root files.
Proof.
  intros [Hprune _]. induction files as [|c r IH]; simpl; [reflexivity|].
  unfold pushesOf. now rewrite Hprune, IH.
Qed.

Lemma listingPromise_sameWalk fh fh' root path :
  sameWalk fh fh' ->
  forall st, listingPromise fh root path st = listingPromise fh' root path st.
Proof.
  intros Hsame. pose proof Hsame as [Hprune Hmatch].
  induction path as [n d h i s e | n d h i s files IH] using File_ind;
    intros st; rewrite !listingPromise_run; [reflexivity|].
  cbv beta iota delta [getFilesSync].
  rewrite (pushesAll_sameWalk root files Hsame).
  destruct (pushesAll fh' root files) as [p|e1]; [|reflexivity].
  rewrite mapM_ext_in
    with (g := fun c => await (asyncItemOf fh' root c)).
  - destruct (mapM (fun c => await (asyncItemOf fh' root c)) files (st ++ p))
      as [[items s2]|e2]; [|reflexivity].
    now rewrite filterR_ext with (q := _isMatch fh').
  - intros c Hc s2. rewrite Forall_forall in IH. unfold asyncItemOf.
    rewrite <- Hprune. destruct (isDirOrFalse c); [|reflexivity].
    destruct (_shouldFilterDirectory fh root c) as [[|]|e2]; try reflexivity.
    simpl. unfold bind. now rewrite IH.
Qed.

Lemma rootSync_sameWalk fs fh fh' dir :
  sameWalk fh fh' -> _directoriesOnly fh = _directoriesOnly fh' ->
  rootSync fs fh dir = rootSync fs fh' dir.
Proof.
  intros Hsame Hmode. unfold rootSync, rootOutcome.
  rewrite (searchArray_sameWalk (fs dir) (fs dir) Hsame), Hmode.
  destruct (searchArray fh' (fs dir) (fs dir) []) as [[files tr]|e];
    [|reflexivity].
  destruct (_directoriesOnly fh'); [|reflexivity].
  apply filterR_ext. apply Hsame.
Qed.

Lemma _searchAsync_sameWalk fs fh fh' dir :
  sameWalk fh fh' -> _directoriesOnly fh = _directoriesOnly fh' ->
  _sync fh = _sync fh' ->
  _searchAsync fs fh dir = _searchAsync fs fh' dir.
Proof.
  intros Hsame Hmode Hflag. destruct (_sync fh') eqn:Hs'.
  - rewrite !_searchAsync_stale by congruence.
    now rewrite (searchArray_sameWalk (fs dir) (fs dir) Hsame).
  - rewrite !_searchAsync_fresh by congruence.
    rewrite (proj1 Hsame).
    destruct (_shouldFilterDirectory fh' (fs dir) (fs dir)) as [[|]|e];
      try reflexivity.
    unfold rootOutcome.
    rewrite (listingPromise_sameWalk (fs dir) (fs dir) Hsame), Hmode.
    destruct (listingPromise fh' (fs dir) (fs dir) []) as [[files tr]|e];
      [|reflexivity].
    destruct (_directoriesOnly fh'); [|reflexivity].
    apply filterR_ext. apply Hsame.
Qed.

(** ** Statistics *)

Lemma format_without_stats fh files :
  _includeStats fh = false ->
  mapR (formatResult fh) files = Ok (map (fun f => PathOnly (getName f)) files).
Proof.
  intros H. induction files as [|f r IH]; simpl; [reflexivity|].
  unfold formatResult at 1. rewrite H, IH. reflexivity.
Qed.

Lemma format_with_stats fh files rs :
  mapR (formatResult (includeFileStats fh)) files = Ok rs ->
  map (fun m => PathOnly (pathOf m)) rs
  = map (fun f => PathOnly (getName f)) files.
Proof.
  revert rs. induction files as [|f r IH]; simpl; intros rs H.
  - now injection H as <-.
  - unfold formatResult at 1 in H. cbn [_includeStats includeFileStats] in H.
    destruct (_getStatsSync f) as [st|e]; simpl in H; [|discriminate].
    destruct (mapR (formatResult (includeFileStats fh)) r) as [rest|e];
      simpl in H; [|discriminate].
    injection H as <-. simpl. now rewrite (IH rest eq_refl).
Qed.

Lemma pipeline_drop_stats fh e s s' roots rs :
  _includeStats fh = false ->
  (forall dir, s dir = s' dir) ->
  pipeline (includeFileStats fh) e s roots = Ok rs ->
  pipeline fh e s' roots = Ok (map (fun m => PathOnly (pathOf m)) rs).
Proof.
  intros Hno Hs. unfold pipeline. rewrite (mapR_ext s s' roots Hs).
  destruct (mapR s' roots) as [arrays|e1]; simpl; [|discriminate].
  destruct (reduceFlatten e arrays) as [files|e2]; simpl; [|discriminate].
  intros H. rewrite (format_with_stats _ _ H). now apply format_without_stats.
Qed.

(** X10. Asking for the statistics changes nothing but the shape of the
    matches: when a search with [includeFileStats()] returns, the same
    search without it returns the paths of the same matches, in the same
    order. *)
Theorem stats_do_not_change_the_matches fs fh :
  _includeStats fh = false ->
  (forall rs, snd (findSync fs (includeFileStats fh)) = Ok rs ->
     snd (findSync fs fh) = Ok (map (fun m => PathOnly (pathOf m)) rs)) /\
  (forall rs, snd (find fs (includeFileStats fh)) = Ok rs ->
     snd (find fs fh) = Ok (map (fun m => PathOnly (pathOf m)) rs)).
Proof.
  intros Hno.
  assert (Hsame : sameWalk (_initFilters (includeFileStats fh)) (_initFilters fh))
    by (split; reflexivity).
  split; intros rs H.
  - rewrite findSync_run in *.
    apply pipeline_drop_stats
      with (s := rootSync fs (_initFilters (includeFileStats fh)));
      [exact Hno| |exact H].
    intros dir. now apply rootSync_sameWalk.
  - rewrite find_run in *.
    apply pipeline_drop_stats
      with (s := _searchAsync fs (_initFilters (includeFileStats fh)));
      [exact Hno| |exact H].
    intros dir. now apply _searchAsync_sameWalk.
Qed.

Lemma stats_do_not_change_the_matches_witness :
  snd (find sampleFs txt_under_r)
  = Ok (map (fun m => PathOnly (pathOf m))
            [PathStats "/r/a.txt" (mkStats 1 0);
             PathStats "/r/sub/c.txt" (mkStats 1 0)]).
Proof.
  destruct (@stats_do_not_change_the_matches sampleFs txt_under_r eq_refl)
    as [_ H].
  apply H. reflexivity.
Defined.

(** ** Several roots *)

Lemma uniq_from_id l : forall seen,
  NoDup l -> (forall x, In x l -> ~ In x seen) -> uniq_from seen l = l.
Proof.
  induction l as [|y r IH]; intros seen Hnd Hseen; simpl; [reflexivity|].
  inversion Hnd as [|? ? Hy Hr]; subst.
  destruct (existsb (String.eqb y) seen) eqn:He.
  - apply existsb_exists in He. destruct He as (z & Hz & Heq).
    apply String.eqb_eq in Heq. subst z.
    exfalso. apply (Hseen y); simpl; auto.
  - f_equal. apply IH; [exact Hr|].
    intros x Hx [<-|Hin]; [contradiction|].
    apply (Hseen x); simpl; auto.
Qed.

Lemma uniq_id l : NoDup l -> uniq l = l.
Proof. intros H. apply uniq_from_id; auto. Qed.

Lemma mapR_app A B (f : A -> result B) l1 l2 :
  mapR f (l1 ++ l2) =
  (x <- mapR f l1 ;; y <- mapR f l2 ;; Ok (x ++ y))%result.
Proof.
  induction l1 as [|a r IH]; simpl.
  - destruct (mapR f l2); reflexivity.
  - destruct (f a) as [b|e]; simpl; [|reflexivity]. rewrite IH.
    destruct (mapR f r) as [x|e]; simpl; [|reflexivity].
    destruct (mapR f l2); reflexivity.
Qed.

Lemma mapR_nonempty A B (f : A -> result B) l bs :
  l <> [] -> mapR f l = Ok bs -> bs <> [].
Proof.
  destruct l as [|a r]; [congruence|]. simpl. intros _.
  destruct (f a); simpl; [|discriminate].
  destruct (mapR f r); simpl; [|discriminate].
  intros H. injection H as <-. discriminate.
Qed.

Lemma reduceFlatten_nonempty e arrays :
  arrays <> [] -> reduceFlatten e arrays = Ok (List.concat arrays).
Proof. rewrite reduceFlatten_run. destruct arrays; congruence. Qed.

Lemma pipeline_app fh e s ps qs :
  ps <> [] -> qs <> [] ->
  match pipeline fh e s ps, pipeline fh e s qs with
  | Ok x, Ok y => pipeline fh e s (ps ++ qs) = Ok (x ++ y)
  | _, _ => exists e', pipeline fh e s (ps ++ qs) = Err e'
  end.
Proof.
  intros Hp Hq. unfold pipeline. rewrite mapR_app.
  destruct (mapR s ps) as [x|e1] eqn:Hx; simpl; [|eauto].
  destruct (mapR s qs) as [y|e2] eqn:Hy; simpl;
    [|destruct (rbind (reduceFlatten e x) _); eauto].
  pose proof (mapR_nonempty _ Hp Hx) as Hx'.
  pose proof (mapR_nonempty _ Hq Hy) as Hy'.
  rewrite !reduceFlatten_nonempty; auto;
    [|destruct x; [congruence|discriminate]].
  simpl. rewrite concat_app, mapR_app.
  destruct (mapR (formatResult fh) (List.concat x)) as [rx|e3]; simpl;
    [|destruct (mapR _ _); eauto].
  destruct (mapR (formatResult fh) (List.concat y)) as [ry|e4]; simpl; eauto.
Qed.

Lemma findSync_on_paths fs fh normalize ps n :
  maxDepth fh = Some n -> NoDup ps ->
  snd (findSync fs (paths normalize ps fh)) =
  pipeline (_initFilters fh)
    (TypeError "Reduce of empty array with no initial value")
    (rootSync fs (_initFilters fh)) (map normalize ps).
Proof.
  intros Hmax Hnd. rewrite findSync_run.
  assert (Hroots : getSearchPaths (paths normalize ps fh) = map normalize ps).
  { unfold getSearchPaths, copy, paths.
    change (maxDepth (set_searchPaths (map normalize (uniq ps)) fh))
      with (maxDepth fh).
    rewrite Hmax. cbn [_searchPaths set_searchPaths]. now rewrite uniq_id. }
  rewrite Hroots. unfold pipeline.
  rewrite mapR_ext with (g := rootSync fs (_initFilters fh)); [reflexivity|].
  intros dir. apply rootSync_sameWalk; [split|]; reflexivity.
Qed.

Lemma find_on_paths fs fh normalize ps n :
  maxDepth fh = Some n -> NoDup ps ->
  snd (find fs (paths normalize ps fh)) =
  pipeline (_initFilters fh)
    (TypeError "expecting an array or an iterable object but got undefined")
    (_searchAsync fs (_initFilters fh)) (map normalize ps).
Proof.
  intros Hmax Hnd. rewrite find_run.
  assert (Hroots : getSearchPaths (paths normalize ps fh) = map normalize ps).
  { unfold getSearchPaths, copy, paths.
    change (maxDepth (set_searchPaths (map normalize (uniq ps)) fh))
      with (maxDepth fh).
    rewrite Hmax. cbn [_searchPaths set_searchPaths]. now rewrite uniq_id. }
  rewrite Hroots. unfold pipeline.
  rewrite mapR_ext with (g := _searchAsync fs (_initFilters fh));
    [reflexivity|].
  intros dir. apply _searchAsync_sameWalk; [split| |]; reflexivity.
Qed.

(** X11. With a depth limit set, so that no root is dropped, the roots are
    searched one after the other: a search of the distinct paths
    [ps ++ qs] returns the matches of the search of [ps] followed by those
    of the search of [qs], without merging what both find, and fails when
    either of the two fails. *)
Theorem roots_are_searched_in_turn fs fh normalize ps qs n :
  maxDepth fh = Some n -> NoDup (ps ++ qs) -> ps <> [] -> qs <> [] ->
  match snd (findSync fs (paths normalize ps fh)),
        snd (findSync fs (paths normalize qs fh)) with
  | Ok x, Ok y =>
      snd (findSync fs (paths normalize (ps ++ qs) fh)) = Ok (x ++ y)
  | _, _ =>
      exists e, snd (findSync fs (paths normalize (ps ++ qs) fh)) = Err e
  end /\
  match snd (find fs (paths normalize ps fh)),
        snd (find fs (paths normalize qs fh)) with
  | Ok x, Ok y =>
      snd (find fs (paths normalize (ps ++ qs) fh)) = Ok (x ++ y)
  | _, _ =>
      exists e, snd (find fs (paths normalize (ps ++ qs) fh)) = Err e
  end.
Proof.
  intros Hmax Hnd Hp Hq.
  pose proof (NoDup_app_remove_r _ _ Hnd) as Hndp.
  pose proof (NoDup_app_remove_l _ _ Hnd) as Hndq.
  assert (Hp' : map normalize ps <> []) by (destruct ps; [congruence|discriminate]).
  assert (Hq' : map normalize qs <> []) by (destruct qs; [congruence|discriminate]).
  split.
  - rewrite !(@findSync_on_paths fs fh normalize _ n Hmax) by assumption.
    rewrite map_app. now apply pipeline_app.
  - rewrite !(@find_on_paths fs fh normalize _ n Hmax) by assumption.
    rewrite map_app. now apply pipeline_app.
Qed.

Lemma roots_are_searched_in_turn_witness :
  snd (findSync sampleFs
         (paths posix_normalize (["/a"] ++ ["/a/b"]) (depth 5 (create "/home"))))
  = Ok ([PathOnly "/a/b/c.txt"] ++ [PathOnly "/a/b/c.txt"]).
Proof.
  destruct (@roots_are_searched_in_turn sampleFs (depth 5 (create "/home"))
              posix_normalize ["/a"] ["/a/b"] 5 eq_refl) as [H _].
  - repeat constructor; simpl; intuition discriminate.
  - discriminate.
  - discriminate.
  - exact H.
Defined.

(** ** The arguments of [paths] *)




(** ** The filter on extensions *)

Lemma cleanExtension_spec a e :
  cleanExtension a = e <->
  a = String "."%char e \/ (a = e /\ startsWithDot a = false).
Proof.
  unfold cleanExtension. destruct a as [|c r]; simpl.
  - split; [intros <-; auto|]. intros [H|[H _]]; [discriminate|exact H].
  - destruct (Ascii.eqb_spec c "."%char) as [->|Hc]; simpl.
    + split; [intros ->; auto|]. intros [H|[_ H]]; [|discriminate].
      now injection H.
    + split; [intros <-; auto|]. intros [H|[H _]]; [|exact H].
      injection H as Hc' _. contradiction.
Qed.

(** X13. [ext] adds one filter, which never throws and accepts an entry
    exactly when the extension of the entry is one of the arguments, an
    argument being allowed one leading dot; with no argument it accepts
    nothing. *)
Theorem ext_accepts_the_listed_extensions getPathExtension args fh :
  exists flt,
    _filters (ext getPathExtension args fh) = _filters fh ++ [flt] /\
    forall file,
      exists b,
        flt file = Ok b /\
        (b = true <->
         exists a, In a args /\
                   (a = String "."%char (getPathExtension file) \/
                    (a = getPathExtension file /\ startsWithDot a = false))).
Proof.
  eexists. split; [reflexivity|]. intros file. eexists. split; [reflexivity|].
  unfold includes. rewrite existsb_exists. split.
  - intros (x & Hx & Heq). apply String.eqb_eq in Heq. subst x.
    apply in_map_iff in Hx. destruct Hx as (a & Ha & Hin).
    exists a. split; [exact Hin|]. now apply cleanExtension_spec.
  - intros (a & Hin & Ha). exists (getPathExtension file).
    split; [|apply String.eqb_refl].
    apply in_map_iff. exists a. split; [|exact Hin].
    now apply cleanExtension_spec.
Qed.

(** ** The filter on globs *)

Lemma firstIsTruthy_filter (q : string -> bool) l :
  q EmptyString = false -> firstIsTruthy (filter q l) = existsb q l.
Proof.
  intros Hq. induction l as [|p r IH]; simpl; [reflexivity|].
  destruct (q p) eqn:Hp; simpl; [|exact IH].
  destruct p; [congruence|reflexivity].
Qed.

(** X14. [glob] adds one filter, which never throws; on an entry the empty
    pattern does not match it accepts exactly when one of the patterns
    matches, so that with no pattern it accepts nothing, and [match] with
    one pattern accepts exactly when that pattern matches. *)
Theorem glob_accepts_what_a_pattern_matches isMatch args fh :
  exists flt,
    _filters (glob isMatch args fh) = _filters fh ++ [flt] /\
    (forall file,
       isMatch file EmptyString = false ->
       flt file = Ok (existsb (isMatch file) args)) /\
    (forall pattern,
     exists one,
       _filters (match_ isMatch (PatternString pattern) fh)
         = _filters fh ++ [one] /\
       forall file, one file = Ok (isMatch file pattern)).
Proof.
  eexists. split; [reflexivity|]. split.
  - intros file Hempty. now rewrite firstIsTruthy_filter.
  - intros pattern. eexists. split; reflexivity.
Qed.

Lemma glob_accepts_what_a_pattern_matches_witness :
  exists flt,
    _filters (glob (fun file g => endsWith g (getName file)
                                  && negb (String.eqb g EmptyString))
                   ["*.js"; ".txt"] (create "/home"))
      = _filters (create "/home") ++ [flt] /\
    flt (regular "/r/a.txt" 1) = Ok true.
Proof.
  destruct (@glob_accepts_what_a_pattern_matches
              (fun file g => endsWith g (getName file)
                             && negb (String.eqb g EmptyString))
              ["*.js"; ".txt"] (create "/home")) as (flt & Hflt & H & _).
  exists flt. split; [exact Hflt|].
  rewrite (H (regular "/r/a.txt" 1)); reflexivity.
Defined.

(** ** [FileHound.any] *)

Lemma fold_app_concat A (ls : list (list A)) acc :
  fold_left (fun a b => a ++ b) ls acc = acc ++ List.concat ls.
Proof.
  revert acc. induction ls as [|l r IH]; intros acc; simpl.
  - now rewrite app_nil_r.
  - now rewrite IH, app_assoc.
Qed.

Lemma any_run args :
  any args = (arrays <- mapR (fun p => p) args ;; Ok (List.concat arrays))%result.
Proof.
  unfold any. destruct (mapR (fun p => p) args); simpl; [|reflexivity].
  now rewrite fold_app_concat.
Qed.

(** X15. [FileHound.any] joins the matches of the searches it is given, in
    the order of the arguments; it is rejected as soon as one of them is,
    and with no argument it resolves to the empty list, where [find] with
    no root is rejected. *)
Theorem any_joins_the_searches :
  any [] = Ok [] /\
  (forall r, any [r] = r) /\
  (forall xs ys,
     any (xs ++ ys) = (a <- any xs ;; b <- any ys ;; Ok (a ++ b))%result) /\
  (forall args e, In (Err e) args -> exists e', any args = Err e').
Proof.
  split; [reflexivity|]. split; [|split].
  - intros [l|e]; [|reflexivity]. rewrite any_run. simpl.
    now rewrite app_nil_r.
  - intros xs ys. rewrite !any_run, mapR_app.
    destruct (mapR (fun p => p) xs) as [a|e1]; simpl; [|reflexivity].
    destruct (mapR (fun p => p) ys) as [b|e2]; simpl; [|reflexivity].
    now rewrite concat_app.
  - intros args e Hin. rewrite any_run.
    destruct (@mapR_Err _ _ (fun p => p) args (Err e) e Hin eq_refl) as [e' ->].
    simpl. eauto.
Qed.

Lemma any_joins_the_searches_witness :
  exists e',
    any [snd (find sampleFs txt_under_r); snd (find deniedFs txt_under_r)]
    = Err e'.
Proof.
  destruct any_joins_the_searches as (_ & _ & _ & H).
  apply (H _ (FsError "EACCES")). simpl. auto.
Defined.

(** ** The two pipelines, and one object used again *)

Lemma forallb_false_exists A (p : A -> bool) l :
  forallb p l = false -> exists a, In a l /\ p a = false.
Proof.
  induction l as [|a r IH]; simpl; [discriminate|].
  destruct (p a) eqn:Ha; simpl; [|eauto].
  intros H. destruct (IH H) as (x & Hx & Hpx). eauto.
Qed.

(** X16. On an object no synchronous search has run on, [find] and [findSync]
    fail together or return the same matches, in some order, unless the
    pruning test holds of a root itself. *)
Theorem find_agrees_unless_a_root_is_pruned fs fh :
  _sync fh = false ->
  (forall dir, In dir (getSearchPaths fh) ->
     _shouldFilterDirectory fh (fs dir) (fs dir) <> Ok true) ->
  sameMatches (snd (findSync fs fh)) (snd (find fs fh)).
Proof.
  intros Hs Hroots.
  destruct (forallb (fun dir =>
              match _shouldFilterDirectory fh (fs dir) (fs dir) with
              | Ok false => true
              | _ => false
              end) (getSearchPaths fh)) eqn:Hall.
  - apply find_agrees_with_findSync; [exact Hs|]. intros dir Hdir.
    rewrite forallb_forall in Hall. specialize (Hall dir Hdir).
    destruct (_shouldFilterDirectory fh (fs dir) (fs dir)) as [[|]|e];
      congruence.
  - apply forallb_false_exists in Hall. destruct Hall as (dir & Hdir & Hbad).
    specialize (Hroots dir Hdir).
    destruct (_shouldFilterDirectory fh (fs dir) (fs dir)) as [[|]|e] eqn:Hf;
      try congruence.
    assert (Hw : searchArray (_initFilters fh) (fs dir) (fs dir) [] = Err e).
    { rewrite searchArray_step.
      change (_shouldFilterDirectory (_initFilters fh))
        with (_shouldFilterDirectory fh). now rewrite Hf. }
    destruct (findSync_fails fs fh dir Hdir Hw) as [e1 ->].
    destruct (find_fails fs fh dir Hdir Hw) as [e2 ->]. exact I.
Qed.

Lemma find_agrees_unless_a_root_is_pruned_witness :
  sameMatches (snd (findSync sampleFs (directory visible_under_p)))
              (snd (find sampleFs (directory visible_under_p))).
Proof.
  apply (@find_agrees_unless_a_root_is_pruned
           sampleFs (directory visible_under_p)).
  - reflexivity.
  - intros dir [<-|[]]. discriminate.
Defined.

(** X17. A search leaves the request as configured: [findSync] can be run
    again and returns what it returned, and after a [find] both [find]
    and [findSync] run as on the request before it. *)
Theorem searches_can_be_repeated fs fh :
  snd (findSync fs (fst (findSync fs fh))) = snd (findSync fs fh) /\
  find fs (fst (find fs fh)) = find fs fh /\
  findSync fs (fst (find fs fh)) = findSync fs fh /\
  getSearchPaths (fst (findSync fs fh)) = getSearchPaths fh /\
  _filters (fst (findSync fs fh)) = _filters fh.
Proof.
  split; [apply findSync_twice|]. split; [reflexivity|].
  split; [reflexivity|].
  unfold findSync. rewrite mapSearchSync_run. cbn [fst].
  change (getSearchPaths (_initFilters fh)) with (getSearchPaths fh).
  destruct (getSearchPaths fh) as [|dir rest] eqn:Hroots;
    (split; [exact Hroots|reflexivity]).
Qed.

(** X18. [findSync] leaves [_sync] set on the object whenever there is a root,
    and every [find] on an object [findSync] has run on is rejected. *)
Theorem find_after_findSync_is_rejected fs fh :
  (getSearchPaths fh <> [] -> _sync (fst (findSync fs fh)) = true) /\
  (forall fs', exists e, snd (find fs' (fst (findSync fs fh))) = Err e).
Proof.
  split.
  - intros Hne. unfold findSync. rewrite mapSearchSync_run. cbn [fst].
    change (getSearchPaths (_initFilters fh)) with (getSearchPaths fh).
    destruct (getSearchPaths fh); [now destruct Hne|reflexivity].
  - intros fs'. unfold findSync. rewrite mapSearchSync_run. cbn [fst].
    change (getSearchPaths (_initFilters fh)) with (getSearchPaths fh).
    rewrite find_run. unfold pipeline.
    destruct (getSearchPaths fh) as [|dir rest] eqn:Hroots.
    + change (getSearchPaths (_initFilters fh)) with (getSearchPaths fh).
      rewrite Hroots. simpl. eauto.
    + change (getSearchPaths (set_sync true (_initFilters fh)))
        with (getSearchPaths fh).
      rewrite Hroots. cbn [mapR].
      rewrite _searchAsync_stale by reflexivity.
      destruct (searchArray _ (fs' dir) (fs' dir) []); simpl; eauto.
Qed.

Lemma find_after_findSync_is_rejected_witness :
  _sync (fst (findSync sampleFs txt_under_r)) = true.
Proof.
  destruct (@find_after_findSync_is_rejected sampleFs txt_under_r) as [H _].
  apply H. discriminate.
Defined.

(* ===================================================================== *)
(** * Hidden directories: what the two searches return *)

Lemma mapR_ext_in A B (f g : A -> result B) l :
  (forall a, In a l -> f a = g a) -> mapR f l = mapR g l.
Proof.
  induction l as [|a r IH]; simpl; intros H; [reflexivity|].
  rewrite (H a (or_introl eq_refl)).
  now rewrite (IH (fun a' Hin => H a' (or_intror Hin))).
Qed.

(** A root that reports its depth and is not hidden is not pruned, when
    the depth limit is not negative. *)
Lemma root_not_pruned fh root :
  isOk (getDepthSync root) = true -> isHiddenSync root = Ok false ->
  (forall n, maxDepth fh = Some n -> 0 <= n) ->
  _shouldFilterDirectory fh root root = Ok false.
Proof.
  intros Hd Hh Hmax. unfold _shouldFilterDirectory, _atMaxDepth.
  destruct (getDepthSync root) as [d|e]; [|discriminate]. simpl.
  rewrite Z.sub_diag.
  destruct (maxDepth fh) as [n|] eqn:Hn.
  - specialize (Hmax n eq_refl).
    assert (Hgt : (0 >? n) = false) by (rewrite Z.gtb_ltb; apply Z.ltb_ge; lia).
    rewrite Hgt.
    rewrite Hh. now destruct (_ignoreHiddenDirectories fh).
  - rewrite Hh. now destruct (_ignoreHiddenDirectories fh).
Qed.

(** On a file system where no call fails below the roots, with roots that
    are not pruned, [find] and [findSync] both return, and the same list. *)
Lemma quiet_search_returns fs fh :
  _sync fh = false -> _directoriesOnly fh = false ->
  getSearchPaths fh <> [] ->
  (forall dir, In dir (getSearchPaths fh) ->
     quietTop (_initFilters fh) (fs dir) = true /\
     _shouldFilterDirectory fh (fs dir) (fs dir) = Ok false) ->
  (forall dir f, In dir (getSearchPaths fh) ->
     Found (_initFilters fh) (fs dir) f -> isOk (formatResult fh f) = true) ->
  exists results,
    snd (find fs fh) = Ok results /\ snd (findSync fs fh) = Ok results.
Proof.
  intros Hs Hmode Hne Hroots Hfmt.
  set (this := _initFilters fh).
  assert (Hroot : forall dir, In dir (getSearchPaths fh) ->
            exists l, rootSync fs this dir = Ok l /\
                      _searchAsync fs this dir = Ok l).
  { intros dir Hdir. destruct (Hroots dir Hdir) as [Hq Hnf].
    destruct (quietTop_walk this (fs dir) Hq []) as (l & p & Hw).
    assert (Hsync : rootSync fs this dir = Ok l).
    { unfold rootSync, rootOutcome. rewrite Hw.
      change (_directoriesOnly this) with (_directoriesOnly fh).
      now rewrite Hmode. }
    exists l. split; [exact Hsync|].
    pose proof (@root_same_files fs this dir Hmode Hs Hnf) as H.
    rewrite Hsync in H.
    destruct (_searchAsync fs this dir) as [l'|e]; simpl in H; [|tauto].
    now subst. }
  assert (Hsame : mapR (_searchAsync fs this) (getSearchPaths fh) =
                  mapR (rootSync fs this) (getSearchPaths fh)).
  { apply mapR_ext_in. intros dir Hdir.
    destruct (Hroot dir Hdir) as (l & H1 & H2). congruence. }
  destruct (@mapR_Ok _ _ (rootSync fs this) (getSearchPaths fh)) as [arrays Harr].
  { intros dir Hdir. destruct (Hroot dir Hdir) as (l & H1 & _). eauto. }
  assert (Hall : exists results,
            mapR (formatResult this) (List.concat arrays) = Ok results).
  { apply mapR_Ok. intros f Hf.
    apply in_concat in Hf. destruct Hf as (l & Hl & Hin).
    destruct (mapR_In_result _ _ Harr l Hl) as (dir & Hdir & Hrun).
    pose proof (rootSync_sound _ _ _ Hrun f Hin) as Hfound.
    specialize (Hfmt dir f Hdir Hfound).
    change (formatResult this f) with (formatResult fh f).
    destruct (formatResult fh f) as [m|e]; [eauto|discriminate]. }
  destruct Hall as [results Hres]. exists results.
  pose proof (@mapR_nonempty _ _ _ _ _ Hne Harr) as Hne'.
  rewrite find_run, findSync_run. unfold pipeline. fold this.
  rewrite Hsame, Harr. cbn [rbind].
  rewrite !reduceFlatten_nonempty by exact Hne'. cbn [rbind].
  split; exact Hres.
Qed.

(** C9. With [ignoreHiddenDirectories()]: a directory is listed only if
    it and every directory between the root and it is not hidden, at every
    level (and with no depth limit the pruning test is the hidden test);
    every match of [findSync] and of [find] is an entry of such a
    directory, so nothing reachable only through a hidden directory is
    returned; in file mode every non-directory of a listed directory
    that the effective predicate accepts is returned; and [find], on an
    object no synchronous search has run on, does return, with the list
    [findSync] returns holding each of these files, when the roots are
    not hidden, the depth limit is not negative and no call on the file
    system fails. *)
Theorem C9_hidden_directories_are_pruned fs fh :
  _ignoreHiddenDirectories fh = true ->
  (forall root top d, Listed fh root top d -> Visible top d) /\
  (forall root d dr dd,
     maxDepth fh = None ->
     getDepthSync root = Ok dr -> getDepthSync d = Ok dd ->
     _shouldFilterDirectory fh root d = isHiddenSync d) /\
  (forall results,
     snd (findSync fs fh) = Ok results \/ snd (find fs fh) = Ok results ->
     forall m, In m results ->
       exists dir d f,
         In dir (getSearchPaths fh) /\ Visible (fs dir) d /\ child d f /\
         formatResult fh f = Ok m) /\
  (forall results dir d f,
     snd (findSync fs fh) = Ok results \/ snd (find fs fh) = Ok results ->
     _directoriesOnly fh = false ->
     In dir (getSearchPaths fh) -> Listed fh (fs dir) (fs dir) d ->
     child d f -> isDirOrFalse f = false -> _newMatcher fh f = Ok true ->
     exists m, formatResult fh f = Ok m /\ In m results) /\
  (_sync fh = false -> _directoriesOnly fh = false ->
   getSearchPaths fh <> [] ->
   (forall dir, In dir (getSearchPaths fh) ->
      quietTop (_initFilters fh) (fs dir) = true /\
      isHiddenSync (fs dir) = Ok false) ->
   (forall n, maxDepth fh = Some n -> 0 <= n) ->
   (forall dir f, In dir (getSearchPaths fh) ->
      Found (_initFilters fh) (fs dir) f -> isOk (formatResult fh f) = true) ->
   exists results,
     snd (find fs fh) = Ok results /\ snd (findSync fs fh) = Ok results /\
     forall dir d f,
       In dir (getSearchPaths fh) -> Listed fh (fs dir) (fs dir) d ->
       child d f -> isDirOrFalse f = false -> _newMatcher fh f = Ok true ->
       exists m, formatResult fh f = Ok m /\ In m results).
Proof.
  intros Hflag.
  assert (Hcomplete : forall results dir d f,
     snd (findSync fs fh) = Ok results \/ snd (find fs fh) = Ok results ->
     _directoriesOnly fh = false ->
     In dir (getSearchPaths fh) -> Listed fh (fs dir) (fs dir) d ->
     child d f -> isDirOrFalse f = false -> _newMatcher fh f = Ok true ->
     exists m, formatResult fh f = Ok m /\ In m results).
  { intros results dir d f Hres Hmode Hdir HL Hch Hnd Hmatch.
    assert (Hf : Found (_initFilters fh) (fs dir) f).
    { exists d. split; [apply -> Listed_initFilters; exact HL|].
      split; [exact Hch|]. split; [exact Hmatch|].
      change (_directoriesOnly (_initFilters fh)) with (_directoriesOnly fh).
      now rewrite Hmode. }
    destruct Hres as [H|H];
      [eapply findSync_complete|eapply find_complete]; eauto. }
  split; [|split; [|split; [|split]]].
  - intros root top d. now apply Listed_Visible.
  - intros root d dr dd Hmax Hr Hd. now apply shouldFilter_unlimited with dr dd.
  - intros results Hres m Hm.
    assert (H : exists dir f, In dir (getSearchPaths fh) /\
                              Found (_initFilters fh) (fs dir) f /\
                              formatResult fh f = Ok m).
    { destruct Hres as [H|H]; [eapply findSync_sound|eapply find_sound]; eauto. }
    destruct H as (dir & f & Hdir & (d & HL & Hch & _) & Hfmt).
    exists dir, d, f. repeat split; auto.
    apply Listed_Visible with (fh := _initFilters fh) (root := fs dir); auto.
  - exact Hcomplete.
  - intros Hs Hmode Hne Hroots Hmax Hfmt.
    destruct (@quiet_search_returns fs fh Hs Hmode Hne) as (results & Hfind & Hsync).
    + intros dir Hdir. destruct (Hroots dir Hdir) as [Hq Hh].
      split; [exact Hq|].
      apply root_not_pruned; [|exact Hh|exact Hmax].
      unfold quietTop in Hq.
      destruct (getDepthSync (fs dir)); [reflexivity|discriminate].
    + exact Hfmt.
    + exists results. split; [exact Hfind|]. split; [exact Hsync|].
      intros dir d f Hdir HL Hch Hnd Hmatch.
      apply (Hcomplete results dir d f); auto.
Qed.

Lemma C9_witness :
  exists results,
    snd (find sampleFs visible_under_p) = Ok results /\
    snd (findSync sampleFs visible_under_p) = Ok results /\
    In (PathOnly "/p/src/y.js") results.
Proof.
  destruct (@C9_hidden_directories_are_pruned sampleFs visible_under_p)
    as (_ & _ & _ & _ & H); [reflexivity|].
  assert (Hne : getSearchPaths visible_under_p <> []) by discriminate.
  assert (Hroots : forall dir, In dir (getSearchPaths visible_under_p) ->
            quietTop (_initFilters visible_under_p) (sampleFs dir) = true /\
            isHiddenSync (sampleFs dir) = Ok false)
    by (intros dir [<-|[]]; split; reflexivity).
  assert (Hmax : forall n, maxDepth visible_under_p = Some n -> 0 <= n)
    by (intros n Hn; discriminate).
  assert (Hfmt : forall dir f, In dir (getSearchPaths visible_under_p) ->
            Found (_initFilters visible_under_p) (sampleFs dir) f ->
            isOk (formatResult visible_under_p f) = true)
    by (intros; reflexivity).
  destruct (H eq_refl eq_refl Hne Hroots Hmax Hfmt)
    as (results & Hfind & Hsync & Hall).
  exists results. split; [exact Hfind|]. split; [exact Hsync|].
  destruct (Hall "/p" src_dir (regular "/p/src/y.js" 2)) as (m & Hm & Hin).
  - simpl. auto.
  - apply Listed_below
      with (files := [regular "/p/x.js" 1; dot_git; src_dir]) (c := src_dir);
      try reflexivity.
    + simpl. auto.
    + apply Listed_here. reflexivity.
  - exists [regular "/p/src/y.js" 2; dot_cache]. simpl. auto.
  - reflexivity.
  - reflexivity.
  - injection Hm as <-. exact Hin.
Defined.
